(** * dex credential store: client_identity and connector_config repositories

    A shallow embedding of [db/client.go] and of the connector-config
    repository of the same package, together with the properties of the
    credential subsystem that the specification states about them.

    Layout: errors and results, the base64 URL codec, the external
    collaborators (bcrypt, JSON, the relational executor), the two
    repositories, and then the theorems. *)

From Stdlib Require Import List String Ascii NArith ZArith Lia Zify ZifyN Bool Arith.
From Stdlib.Strings Require Import Byte.
Import ListNotations.

Local Open Scope string_scope.
Local Open Scope list_scope.

(** ** Errors and results *)

(** The error values that travel through the package.  Go's [error] is an
    open interface; the constructors below are the ones this code creates
    or receives from its collaborators. *)
Inductive error : Type :=
| sql_ErrNoRows
| sql_ErrTxDone
| UniqueViolation (table : string)        (* the driver's unique-constraint error *)
| StorageError (msg : string)             (* any other driver failure *)
| client_ErrorNotFound
| connector_ErrorNotFound
| errors_New (msg : string)
| fmt_Errorf (msg : string) (arg : string)
| InsertFailed (cause : error)            (* fmt.Errorf("DB insert failed %#v: %v", ...) *)
| CorruptInputError                       (* encoding/base64 *)
| EntropyError                            (* crypto/rand could not deliver *)
| json_Error (msg : string)
| UnknownTypeError (tag : string).

Inductive result (A : Type) : Type :=
| Ok (a : A)
| Err (e : error).

Arguments Ok {A} a.
Arguments Err {A} e.

Definition is_Err {A : Type} (r : result A) : Prop :=
  match r with Ok _ => False | Err _ => True end.

(** ** encoding/base64, URLEncoding (RFC 4648 section 5, padded) *)

Module Base64.

Definition encodeURL : string :=
  "ABCDEFGHIJKLMNOPQRSTUVWXYZabcdefghijklmnopqrstuvwxyz0123456789-_".

Definition padChar : ascii := "="%char.

Definition alphabet : list ascii := list_ascii_of_string encodeURL.

(** [enc.encode[i]] *)
Definition enc6 (i : N) : ascii := nth (N.to_nat i) alphabet padChar.

Fixpoint index_of (c : ascii) (l : list ascii) (i : N) : option N :=
  match l with
  | [] => None
  | x :: l' => if Ascii.eqb x c then Some i else index_of c l' (N.succ i)
  end.

(** [enc.decodeMap[c]], with [None] for the 0xFF entries. *)
Definition dec6 (c : ascii) : option N := index_of c alphabet 0.

(** Go's [byte(x)]: keep the low eight bits. *)
Definition byte_of_N (n : N) : byte :=
  match Byte.of_N (N.land n 255) with
  | Some b => b
  | None => x00
  end.

(** The 24-bit group of up to three source bytes. *)
Definition group24 (a b c : byte) : N :=
  N.lor (N.lor (N.shiftl (Byte.to_N a) 16) (N.shiftl (Byte.to_N b) 8)) (Byte.to_N c).

Definition sextet (v : N) (k : N) : ascii := enc6 (N.land (N.shiftr v k) 63).

Fixpoint encode (src : list byte) : list ascii :=
  match src with
  | [] => []
  | [a] =>
      let v := group24 a x00 x00 in
      [sextet v 18; sextet v 12; padChar; padChar]
  | [a; b] =>
      let v := group24 a b x00 in
      [sextet v 18; sextet v 12; sextet v 6; padChar]
  | a :: b :: c :: rest =>
      let v := group24 a b c in
      sextet v 18 :: sextet v 12 :: sextet v 6 :: sextet v 0 :: encode rest
  end.

Definition EncodeToString (src : list byte) : string :=
  string_of_list_ascii (encode src).

(** [val := d0<<18 | d1<<12 | d2<<6 | d3] *)
Definition val24 (d0 d1 d2 d3 : N) : N :=
  N.lor (N.lor (N.lor (N.shiftl d0 18) (N.shiftl d1 12)) (N.shiftl d2 6)) d3.

Definition isNewline (c : ascii) : bool :=
  Ascii.eqb c "010"%char || Ascii.eqb c "013"%char.

Definition isNil {A : Type} (l : list A) : bool :=
  match l with [] => true | _ => false end.

(** One quantum of four characters at a time; padding is only accepted in
    the last quantum, and anything after it is corrupt input. *)
Fixpoint decode (src : list ascii) : result (list byte) :=
  match src with
  | [] => Ok []
  | c0 :: c1 :: c2 :: c3 :: rest =>
      match dec6 c0, dec6 c1 with
      | Some d0, Some d1 =>
          if Ascii.eqb c2 padChar then
            if Ascii.eqb c3 padChar && isNil rest
            then Ok [byte_of_N (N.shiftr (val24 d0 d1 0 0) 16)]
            else Err CorruptInputError
          else
            match dec6 c2 with
            | Some d2 =>
                if Ascii.eqb c3 padChar then
                  if isNil rest
                  then let v := val24 d0 d1 d2 0 in
                       Ok [byte_of_N (N.shiftr v 16); byte_of_N (N.shiftr v 8)]
                  else Err CorruptInputError
                else
                  match dec6 c3 with
                  | Some d3 =>
                      let v := val24 d0 d1 d2 d3 in
                      match decode rest with
                      | Ok bs =>
                          Ok (byte_of_N (N.shiftr v 16)
                              :: byte_of_N (N.shiftr v 8)
                              :: byte_of_N v :: bs)
                      | Err e => Err e
                      end
                  | None => Err CorruptInputError
                  end
            | None => Err CorruptInputError
            end
      | _, _ => Err CorruptInputError
      end
  | _ => Err CorruptInputError
  end.

(** [DecodeString] ignores carriage returns and line feeds. *)
Definition DecodeString (s : string) : result (list byte) :=
  decode (filter (fun c => negb (isNewline c)) (list_ascii_of_string s)).

End Base64.

(** ** External collaborators *)

(** golang.org/x/crypto/bcrypt.  [bcrypt_hash salt cost password] is the
    hash [GenerateFromPassword] returns once it has drawn its salt, and
    [bcrypt_compare hash password] tells whether [CompareHashAndPassword]
    returns nil. *)
Class Bcrypt : Type := {
  bcrypt_hash : list byte -> nat -> list byte -> list byte;
  bcrypt_compare : list byte -> list byte -> bool
}.

Definition bcrypt_saltLength : nat := 16.

(** The contract of the library: a password verifies against its own
    hash, whatever salt was drawn. *)
Definition bcrypt_sound {B : Bcrypt} : Prop :=
  forall salt cost password,
    List.length salt = bcrypt_saltLength ->
    bcrypt_compare (bcrypt_hash salt cost password) password = true.

(** encoding/json on a Go type [A]: [json.Marshal(v)] and
    [json.Unmarshal(data, &v)], the latter returning the updated [v]. *)
Class JSON (A : Type) : Type := {
  json_Marshal : A -> result (list byte);
  json_Unmarshal : list byte -> A -> result A
}.

(** The zero value of a Go type. *)
Class Zero (A : Type) : Type := zero : A.

(** [string(b)] and [[]byte(s)] *)
Definition string_of_bytes (b : list byte) : string := string_of_list_byte b.
Definition bytes_of_string (s : string) : list byte := list_byte_of_string s.

(** ** oidc and client packages: the values the repository handles *)

Module oidc.
Record ClientCredentials : Type := {
  ID : string;
  Secret : string
}.
End oidc.

Module client.
Record Client (ClientMetadata : Type) : Type := {
  Credentials : oidc.ClientCredentials;
  Metadata : ClientMetadata;
  Admin : bool
}.
Arguments Credentials {ClientMetadata} _.
Arguments Metadata {ClientMetadata} _.
Arguments Admin {ClientMetadata} _.
Arguments Build_Client {ClientMetadata} _ _ _.
End client.

(** ** Package db: constants and row shapes *)

Definition clientTableName : string := "client_identity".
Definition connectorConfigTableName : string := "connector_config".
Definition bcryptHashCost : nat := 10.
Definition maxSecretLength : nat := 72.

Record clientModel : Type := {
  clientModel_ID : string;
  clientModel_Secret : list byte;
  clientModel_Metadata : string;
  clientModel_DexAdmin : bool
}.

Record connectorConfigModel : Type := {
  connectorConfigModel_ID : string;
  connectorConfigModel_Type : string;
  connectorConfigModel_Config : string
}.

(** ** The world the package runs in

    The two tables as the executor at hand sees them (rows in insertion
    order, primary key [id] enforced by [Insert]), the undo image of the
    open transaction if there is one, the package-level registry of
    already-exists checkers, the bytes crypto/rand will deliver, and the
    outcome the storage layer has in store for each coming call
    ([Some e]: the call fails with [e]; [None] or nothing: it runs). *)
Record World : Type := {
  client_identity : list clientModel;
  connector_config : list connectorConfigModel;
  open_tx : option (list clientModel * list connectorConfigModel);
  alreadyExistsCheckers : list (error -> bool);
  entropy : list byte;
  faults : list (option error)
}.

Definition set_client_identity (rows : list clientModel) (w : World) : World :=
  {| client_identity := rows; connector_config := connector_config w;
     open_tx := open_tx w; alreadyExistsCheckers := alreadyExistsCheckers w;
     entropy := entropy w; faults := faults w |}.

Definition set_connector_config (rows : list connectorConfigModel) (w : World) : World :=
  {| client_identity := client_identity w; connector_config := rows;
     open_tx := open_tx w; alreadyExistsCheckers := alreadyExistsCheckers w;
     entropy := entropy w; faults := faults w |}.

Definition set_open_tx (t : option (list clientModel * list connectorConfigModel))
  (w : World) : World :=
  {| client_identity := client_identity w; connector_config := connector_config w;
     open_tx := t; alreadyExistsCheckers := alreadyExistsCheckers w;
     entropy := entropy w; faults := faults w |}.

Definition set_alreadyExistsCheckers (cs : list (error -> bool)) (w : World) : World :=
  {| client_identity := client_identity w; connector_config := connector_config w;
     open_tx := open_tx w; alreadyExistsCheckers := cs;
     entropy := entropy w; faults := faults w |}.

Definition set_entropy (e : list byte) (w : World) : World :=
  {| client_identity := client_identity w; connector_config := connector_config w;
     open_tx := open_tx w; alreadyExistsCheckers := alreadyExistsCheckers w;
     entropy := e; faults := faults w |}.

Definition set_faults (f : list (option error)) (w : World) : World :=
  {| client_identity := client_identity w; connector_config := connector_config w;
     open_tx := open_tx w; alreadyExistsCheckers := alreadyExistsCheckers w;
     entropy := entropy w; faults := f |}.

(** ** State and error monad: Go's [(value, error)] returns over the world *)

Definition M (A : Type) : Type := World -> result A * World.

Definition ret {A : Type} (a : A) : M A := fun w => (Ok a, w).

Definition fail {A : Type} (e : error) : M A := fun w => (Err e, w).

Definition bind {A B : Type} (m : M A) (k : A -> M B) : M B :=
  fun w =>
    match m w with
    | (Ok a, w') => k a w'
    | (Err e, w') => (Err e, w')
    end.

Definition lift {A : Type} (r : result A) : M A := fun w => (r, w).

Declare Scope go_scope.
Delimit Scope go_scope with go.
Notation "x <- m ;; k" := (bind m (fun x => k))
  (at level 100, m at next level, right associativity) : go_scope.
Notation "m ;;; k" := (bind m (fun _ => k))
  (at level 100, right associativity) : go_scope.
Local Open Scope go_scope.

(** [defer d] around a body: [d] runs when the body returns, whatever it
    returns, and its own result is dropped. *)
Definition defer {A : Type} (d : World -> World) (body : M A) : M A :=
  fun w => let (r, w') := body w in (r, d w').

(** ** crypto/rand *)

(** A computation that only consumes random bytes. *)
Definition Rand (A : Type) : Type := list byte -> result A * list byte.

Definition rand_Read (n : nat) : Rand (list byte) :=
  fun e =>
    if Nat.leb n (List.length e)
    then (Ok (firstn n e), skipn n e)
    else (Err EntropyError, e).

Definition liftRand {A : Type} (g : Rand A) : M A :=
  fun w => let (r, e') := g (entropy w) in (r, set_entropy e' w).

(** Modelled from the spec: [pcrypto.RandBytes] lives in pkg/crypto, which
    is not part of the sources at hand; the specification's [Generate]
    "produces a cryptographically secure random byte sequence of fixed
    length", failing only when the entropy source does. *)
Definition RandBytes (n : nat) : Rand (list byte) := rand_Read n.

(** [bcrypt.GenerateFromPassword(password, cost)]: draws a salt, then hashes. *)
Definition bcrypt_GenerateFromPassword {B : Bcrypt} (password : list byte) (cost : nat)
  : M (list byte) :=
  salt <- liftRand (rand_Read bcrypt_saltLength) ;;
  ret (bcrypt_hash salt cost password).

(** ** The relational executor (gorp) and its transactions

    [r.executor(tx)] is gorp's [SqlExecutor] for the transaction at hand,
    or for the database itself when [tx] is nil; either way it reads and
    writes the tables of the world, so the methods below that take a [tx]
    do not show it.  Rows come out of a table with the type they went in
    with, which leaves the "unrecognized model" branches of the methods,
    and their logging, without a counterpart here.

    Every call first learns from the storage layer whether it runs at all. *)
Definition db_call : M unit :=
  fun w =>
    match faults w with
    | Some e :: rest => (Err e, set_faults rest w)
    | None :: rest => (Ok tt, set_faults rest w)
    | [] => (Ok tt, w)
    end.

Definition hasClient (id : string) (rows : list clientModel) : bool :=
  existsb (fun m => String.eqb (clientModel_ID m) id) rows.

Definition findClient (id : string) (rows : list clientModel) : option clientModel :=
  find (fun m => String.eqb (clientModel_ID m) id) rows.

(** [exec.Get(clientModel{}, id)]: the row, or nil without an error when
    there is none. *)
Definition exec_Get (id : string) : M (option clientModel) :=
  db_call ;;; fun w => (Ok (findClient id (client_identity w)), w).

(** [exec.Insert(cim)]: the primary key must be new. *)
Definition exec_Insert (cim : clientModel) : M unit :=
  db_call ;;;
  fun w =>
    if hasClient (clientModel_ID cim) (client_identity w)
    then (Err (UniqueViolation clientTableName), w)
    else (Ok tt, set_client_identity (client_identity w ++ [cim]) w).

(** [exec.Update(cim)]: rewrites the row with that key; the count of rows
    touched is returned. *)
Definition exec_Update (cim : clientModel) : M nat :=
  db_call ;;;
  fun w =>
    let hit m := String.eqb (clientModel_ID m) (clientModel_ID cim) in
    (Ok (List.length (filter hit (client_identity w))),
     set_client_identity
       (map (fun m => if hit m then cim else m) (client_identity w)) w).

(** [exec.Select(&clientModel{}, "SELECT * FROM client_identity")] *)
Definition exec_Select : M (list clientModel) :=
  db_call ;;; fun w => (Ok (client_identity w), w).

Definition hasConnector (id : string) (rows : list connectorConfigModel) : bool :=
  existsb (fun m => String.eqb (connectorConfigModel_ID m) id) rows.

(** [dbMap.Select(&connectorConfigModel{}, "SELECT * FROM connector_config")] *)
Definition connector_Select : M (list connectorConfigModel) :=
  db_call ;;; fun w => (Ok (connector_config w), w).

(** [SelectOne(&c, "SELECT * FROM connector_config WHERE id = $1", id)]:
    exactly one row is wanted. *)
Definition connector_SelectOne (id : string) : M connectorConfigModel :=
  db_call ;;;
  fun w =>
    match filter (fun m => String.eqb (connectorConfigModel_ID m) id) (connector_config w) with
    | [] => (Err sql_ErrNoRows, w)
    | [c] => (Ok c, w)
    | _ => (Err (StorageError "gorp: multiple rows returned"), w)
    end.

(** [tx.Exec("DELETE FROM connector_config")] *)
Definition connector_DeleteAll : M unit :=
  db_call ;;; fun w => (Ok tt, set_connector_config [] w).

Definition connector_Insert1 (m : connectorConfigModel) : M unit :=
  db_call ;;;
  fun w =>
    if hasConnector (connectorConfigModel_ID m) (connector_config w)
    then (Err (UniqueViolation connectorConfigTableName), w)
    else (Ok tt, set_connector_config (connector_config w ++ [m]) w).

(** [tx.Insert(insert...)]: one statement per row, stopping at the first
    that fails. *)
Fixpoint connector_Insert (insert : list connectorConfigModel) : M unit :=
  match insert with
  | [] => ret tt
  | m :: rest => connector_Insert1 m ;;; connector_Insert rest
  end.

Definition restore (img : list clientModel * list connectorConfigModel) (w : World) : World :=
  set_open_tx None (set_connector_config (snd img) (set_client_identity (fst img) w)).

(** Modelled from the spec: [r.begin()] and [r.executor(tx)] are defined in
    the package's db.go, which is not part of the sources at hand; the
    specification has the executor "operate inside or outside an ambient
    transaction handle", the handle supporting "Commit()/Rollback(),
    rollback safe to call after commit (no-op)".  From [begin] on, writes
    can be undone. *)
Definition begin : M unit :=
  db_call ;;;
  fun w => (Ok tt, set_open_tx (Some (client_identity w, connector_config w)) w).

(** [tx.Commit()]: makes the writes permanent; a commit that fails leaves
    none of them. *)
Definition tx_Commit : M unit :=
  fun w =>
    match open_tx w with
    | None => (Err sql_ErrTxDone, w)
    | Some img =>
        match db_call w with
        | (Ok _, w') => (Ok tt, set_open_tx None w')
        | (Err e, w') => (Err e, restore img w')
        end
    end.

(** [tx.Rollback()]: undoes the writes of an open transaction, and does
    nothing once the transaction is over. *)
Definition tx_Rollback (w : World) : World :=
  match open_tx w with
  | None => w
  | Some img => restore img w
  end.

(** ** db/client.go *)

Section ClientModel.
Context {B : Bcrypt} {ClientMetadata : Type}
        {ZM : Zero ClientMetadata} {JM : JSON ClientMetadata}.

Definition newClientModel (cli : client.Client ClientMetadata) : M clientModel :=
  secretBytes <- lift (Base64.DecodeString (oidc.Secret (client.Credentials cli))) ;;
  hashed <- bcrypt_GenerateFromPassword secretBytes bcryptHashCost ;;
  bmeta <- lift (json_Marshal (client.Metadata cli)) ;;
  ret {| clientModel_ID := oidc.ID (client.Credentials cli);
         clientModel_Secret := hashed;
         clientModel_Metadata := string_of_bytes bmeta;
         clientModel_DexAdmin := client.Admin cli |}.

(** [(m *clientModel) Client()] *)
Definition clientModel_Client (m : clientModel) : result (client.Client ClientMetadata) :=
  let ci := {| client.Credentials := {| oidc.ID := clientModel_ID m; oidc.Secret := "" |};
               client.Metadata := zero;
               client.Admin := clientModel_DexAdmin m |} in
  match json_Unmarshal (bytes_of_string (clientModel_Metadata m)) (client.Metadata ci) with
  | Err err => Err err
  | Ok md => Ok {| client.Credentials := client.Credentials ci;
                   client.Metadata := md;
                   client.Admin := client.Admin ci |}
  end.

End ClientModel.

Definition SecretGenerator : Type := Rand (list byte).

Definition DefaultSecretGenerator : SecretGenerator := RandBytes maxSecretLength.

(** The receiver: the embedded [*db] is the world, the rest is this. *)
Record clientRepo : Type := {
  secretGenerator : SecretGenerator
}.

Definition newClientRepo : clientRepo :=
  {| secretGenerator := DefaultSecretGenerator |}.

Definition NewClientRepo : clientRepo := newClientRepo.

Definition NewClientRepoWithSecretGenerator (secGen : SecretGenerator) : clientRepo :=
  {| secretGenerator := secGen |}.

Definition registerAlreadyExistsChecker (f : error -> bool) (w : World) : World :=
  set_alreadyExistsCheckers (alreadyExistsCheckers w ++ [f]) w.

Fixpoint anyChecker (checkers : list (error -> bool)) (err : error) : bool :=
  match checkers with
  | [] => false
  | checker :: rest => if checker err then true else anyChecker rest err
  end.

Definition isAlreadyExistsErr (err : error) (w : World) : bool :=
  anyChecker (alreadyExistsCheckers w) err.

Section ClientRepoFromClients.
Context {B : Bcrypt} {ClientMetadata : Type} {JM : JSON ClientMetadata}.

(** The body of the [for _, c := range clients] loop, item after item. *)
Fixpoint insertClients (clients : list (client.Client ClientMetadata)) : M unit :=
  match clients with
  | [] => ret tt
  | c :: rest =>
      if String.eqb (oidc.Secret (client.Credentials c)) ""
      then fail (fmt_Errorf "client %q has no secret" (oidc.ID (client.Credentials c)))
      else
        cm <- newClientModel c ;;
        exec_Insert cm ;;;
        insertClients rest
  end.

Definition NewClientRepoFromClients (clients : list (client.Client ClientMetadata))
  : M clientRepo :=
  let repo := newClientRepo in
  begin ;;;
  defer tx_Rollback
    (insertClients clients ;;;
     tx_Commit ;;;
     ret repo).

End ClientRepoFromClients.

Module clientRepo.
Section Methods.
Context {B : Bcrypt} {ClientMetadata : Type}
        {ZM : Zero ClientMetadata} {JM : JSON ClientMetadata}.

Definition zeroClient : client.Client ClientMetadata :=
  {| client.Credentials := {| oidc.ID := ""; oidc.Secret := "" |};
     client.Metadata := zero;
     client.Admin := false |}.

(** A failed lookup hands back a nil row, so every failure of the lookup
    reads as "not found" here. *)
Definition Get (clientID : string) : M (client.Client ClientMetadata) :=
  fun w =>
    match exec_Get clientID w with
    | (Err _, w') => (Err client_ErrorNotFound, w')
    | (Ok None, w') => (Err client_ErrorNotFound, w')
    | (Ok (Some cim), w') => (clientModel_Client cim, w')
    end.

Definition Metadata (clientID : string) : M ClientMetadata :=
  c <- Get clientID ;;
  ret (client.Metadata c).

(** Returns Go's pair [(bool, error)]. *)
Definition IsDexAdmin (clientID : string) : World -> (bool * option error) * World :=
  fun w =>
    match exec_Get clientID w with
    | (Err err, w') => ((false, Some err), w')
    | (Ok None, w') => ((false, None), w')
    | (Ok (Some cim), w') => ((clientModel_DexAdmin cim, None), w')
    end.

Definition withDexAdmin (isAdmin : bool) (cim : clientModel) : clientModel :=
  {| clientModel_ID := clientModel_ID cim;
     clientModel_Secret := clientModel_Secret cim;
     clientModel_Metadata := clientModel_Metadata cim;
     clientModel_DexAdmin := isAdmin |}.

(** [Ok tt] is Go's nil error. *)
Definition SetDexAdmin (clientID : string) (isAdmin : bool) : M unit :=
  begin ;;;
  defer tx_Rollback
    (m <- exec_Get clientID ;;
     match m with
     | None => ret tt
     | Some cim =>
         exec_Update (withDexAdmin isAdmin cim) ;;;
         tx_Commit
     end).

Definition Authenticate (creds : oidc.ClientCredentials)
  : World -> (bool * option error) * World :=
  fun w =>
    match exec_Get (oidc.ID creds) w with
    | (Err err, w') => ((false, Some err), w')
    | (Ok None, w') => ((false, None), w')
    | (Ok (Some cim), w') =>
        match Base64.DecodeString (oidc.Secret creds) with
        | Err _ => ((false, None), w')
        | Ok dec =>
            if Nat.ltb maxSecretLength (List.length dec)
            then ((false, None), w')
            else ((bcrypt_compare (clientModel_Secret cim) dec, None), w')
        end
    end.

Definition withSecret (secret : string) (cli : client.Client ClientMetadata)
  : client.Client ClientMetadata :=
  {| client.Credentials := {| oidc.ID := oidc.ID (client.Credentials cli);
                              oidc.Secret := secret |};
     client.Metadata := client.Metadata cli;
     client.Admin := client.Admin cli |}.

Definition New (r : clientRepo) (cli : client.Client ClientMetadata)
  : M oidc.ClientCredentials :=
  secret <- liftRand (secretGenerator r) ;;
  let cli := withSecret (Base64.EncodeToString secret) cli in
  cim <- newClientModel cli ;;
  fun w =>
    match exec_Insert cim w with
    | (Err err, w') =>
        if isAlreadyExistsErr err w'
        then (Err (errors_New "client ID already exists"), w')
        else (Err err, w')
    | (Ok _, w') =>
        (Ok {| oidc.ID := oidc.ID (client.Credentials cli);
               oidc.Secret := oidc.Secret (client.Credentials cli) |}, w')
    end.

Fixpoint clientsOf (objs : list clientModel) : result (list (client.Client ClientMetadata)) :=
  match objs with
  | [] => Ok []
  | m :: rest =>
      match clientModel_Client m with
      | Err err => Err err
      | Ok ci =>
          match clientsOf rest with
          | Err err => Err err
          | Ok cs => Ok (ci :: cs)
          end
      end
  end.

Definition All : M (list (client.Client ClientMetadata)) :=
  objs <- exec_Select ;;
  lift (clientsOf objs).

End Methods.
End clientRepo.

(** ** The connector_config repository *)

(** The [connector.ConnectorConfig] interface, as far as this package
    calls it, with the JSON behaviour of the values behind it. *)
Class ConnectorConfig (Config : Type) : Type := {
  ConnectorID : Config -> string;
  ConnectorType : Config -> string;
  config_JSON :: JSON Config
}.

(** The constructors registered per type tag, each given by the empty
    configuration it returns. *)
Class ConnectorRegistry (Config : Type) : Type :=
  connectorTypes : list (string * Config).

Section ConnectorConfigModel.
Context {Config : Type} {CC : ConnectorConfig Config} {CR : ConnectorRegistry Config}.

(** Modelled from the spec: [connector.NewConnectorConfigFromType] belongs
    to the connector package, which is not part of the sources at hand; the
    specification describes "a type registry ([NewConfigForType(tag) ->
    empty config | UnknownTypeError])" in which "each connector
    implementation registers a constructor for its tag at startup",
    "resolving an unregistered tag" being "a hard, surfaced error". *)
Definition NewConnectorConfigFromType (ctype : string) : result Config :=
  match find (fun entry => String.eqb (fst entry) ctype) connectorTypes with
  | Some (_, cfg) => Ok cfg
  | None => Err (UnknownTypeError ctype)
  end.

Definition newConnectorConfigModel (cfg : Config) : result connectorConfigModel :=
  match json_Marshal cfg with
  | Err err => Err err
  | Ok b =>
      Ok {| connectorConfigModel_ID := ConnectorID cfg;
            connectorConfigModel_Type := ConnectorType cfg;
            connectorConfigModel_Config := string_of_bytes b |}
  end.

(** [(m *connectorConfigModel) ConnectorConfig()] *)
Definition connectorConfigModel_ConnectorConfig (m : connectorConfigModel) : result Config :=
  match NewConnectorConfigFromType (connectorConfigModel_Type m) with
  | Err err => Err err
  | Ok cfg =>
      match json_Unmarshal (bytes_of_string (connectorConfigModel_Config m)) cfg with
      | Err err => Err err
      | Ok cfg' => Ok cfg'
      end
  end.

End ConnectorConfigModel.

Module ConnectorConfigRepo.
Section Methods.
Context {Config : Type} {CC : ConnectorConfig Config} {CR : ConnectorRegistry Config}.

(** The loop of [All] over the selected rows. *)
Fixpoint configsOf (objs : list connectorConfigModel) : result (list Config) :=
  match objs with
  | [] => Ok []
  | m :: rest =>
      match connectorConfigModel_ConnectorConfig m with
      | Err err => Err err
      | Ok cfg =>
          match configsOf rest with
          | Err err => Err err
          | Ok cfgs => Ok (cfg :: cfgs)
          end
      end
  end.

Definition All : M (list Config) :=
  objs <- connector_Select ;;
  lift (configsOf objs).

Definition GetConnectorByID (id : string) : M Config :=
  fun w =>
    match connector_SelectOne id w with
    | (Err err, w') =>
        match err with
        | sql_ErrNoRows => (Err connector_ErrorNotFound, w')
        | _ => (Err err, w')
        end
    | (Ok c, w') => (connectorConfigModel_ConnectorConfig c, w')
    end.

(** The first loop of [Set]: every config serialized before anything is
    written. *)
Fixpoint modelsOf (cfgs : list Config) : result (list connectorConfigModel) :=
  match cfgs with
  | [] => Ok []
  | cfg :: rest =>
      match newConnectorConfigModel cfg with
      | Err err => Err err
      | Ok m =>
          match modelsOf rest with
          | Err err => Err err
          | Ok ms => Ok (m :: ms)
          end
      end
  end.

(** [(r *ConnectorConfigRepo) Set(cfgs)]; [Set] itself is a reserved word here. *)
Definition SetConfigs (cfgs : list Config) : M unit :=
  insert <- lift (modelsOf cfgs) ;;
  begin ;;;
  defer tx_Rollback
    (connector_DeleteAll ;;;
     (fun w =>
        match connector_Insert insert w with
        | (Err err, w') => (Err (InsertFailed err), w')
        | (Ok u, w') => (Ok u, w')
        end) ;;;
     tx_Commit).

End Methods.
End ConnectorConfigRepo.

(** ** Reading the world *)

Definition noFault (f : option error) : bool :=
  match f with
  | None => true
  | Some _ => false
  end.

(** The storage layer serves the next [n] calls. *)
Definition storageServes (n : nat) (w : World) : bool :=
  forallb noFault (firstn n (faults w)).

(** The error, if any, that the storage layer answers the next call with. *)
Definition nextFault (w : World) : option error :=
  match faults w with
  | Some e :: _ => Some e
  | _ => None
  end.

Definition tables (w : World) : list clientModel * list connectorConfigModel :=
  (client_identity w, connector_config w).

Definition rowsOf (id : string) (rows : list clientModel) : list clientModel :=
  filter (fun m => String.eqb (clientModel_ID m) id) rows.

(** ** Vocabulary of the properties *)

(** Everything but the random bytes and the fault schedule. *)
Definition durable (w : World)
  : list clientModel * list connectorConfigModel
    * option (list clientModel * list connectorConfigModel) :=
  (client_identity w, connector_config w, open_tx w).

(** The conditions under which [Authenticate] must refuse: the id has no
    row, the presented secret is not base64-URL text, or it decodes to more
    than 72 bytes. *)
Definition mustReject (creds : oidc.ClientCredentials) (w : World) : Prop :=
  findClient (oidc.ID creds) (client_identity w) = None \/
  is_Err (Base64.DecodeString (oidc.Secret creds)) \/
  exists dec, Base64.DecodeString (oidc.Secret creds) = Ok dec /\
              maxSecretLength < List.length dec.

Section ClientVocabulary.
Context {B : Bcrypt} {ClientMetadata : Type}
        {ZM : Zero ClientMetadata} {JM : JSON ClientMetadata}.

(** The row [newClientModel] builds for a client whose secret is the
    encoding of [secret], under the salt drawn for the hash. *)
Definition modelOf (cli : client.Client ClientMetadata) (secret salt bmeta : list byte)
  : clientModel :=
  {| clientModel_ID := oidc.ID (client.Credentials cli);
     clientModel_Secret := bcrypt_hash salt bcryptHashCost secret;
     clientModel_Metadata := string_of_bytes bmeta;
     clientModel_DexAdmin := client.Admin cli |}.

(** The contract of encoding/json that a lossless store needs: what
    [Marshal] wrote for [md], [Unmarshal] reads back as [md] into an empty
    value. *)
Definition json_lossless (md : ClientMetadata) : Prop :=
  forall data, json_Marshal md = Ok data -> json_Unmarshal data zero = Ok md.

(** The client as the store gives it back: same id, same metadata, same
    admin flag, and no secret. *)
Definition asStored (cli : client.Client ClientMetadata) : client.Client ClientMetadata :=
  clientRepo.withSecret "" cli.

End ClientVocabulary.

Section ConnectorVocabulary.
Context {Config : Type} {CC : ConnectorConfig Config} {CR : ConnectorRegistry Config}.

(** A constructor is registered for the tag. *)
Definition registered (tag : string) : bool :=
  existsb (fun entry : string * Config => String.eqb (fst entry) tag) connectorTypes.

(** A config that belongs to the registry: its tag has a constructor, and
    its serialized form read into the constructor's empty value gives it
    back. *)
Definition loadsBack (cfg : Config) : Prop :=
  forall data, json_Marshal cfg = Ok data ->
  exists empty,
    NewConnectorConfigFromType (ConnectorType cfg) = Ok empty /\
    json_Unmarshal data empty = Ok cfg.

End ConnectorVocabulary.

(** ** Stand-ins for the external libraries, to run the model on examples *)

Module Demo.

Fixpoint bytes_eqb (a b : list byte) : bool :=
  match a, b with
  | [], [] => true
  | x :: a', y :: b' => Byte.eqb x y && bytes_eqb a' b'
  | _, _ => false
  end.

(** Keeps what bcrypt keeps of a password: its first 72 bytes. *)
Definition bcrypt : Bcrypt :=
  {| bcrypt_hash := fun salt _ password => salt ++ firstn 72 password;
     bcrypt_compare := fun hash password =>
       bytes_eqb (skipn bcrypt_saltLength hash) (firstn 72 password) |}.

(** Metadata reduced to one text field, serialized as that text. *)
Definition Metadata : Type := string.

Definition zeroMetadata : Zero Metadata := "".

Definition jsonMetadata : JSON Metadata :=
  {| json_Marshal := fun md => Ok (bytes_of_string md);
     json_Unmarshal := fun data _ => Ok (string_of_bytes data) |}.

(** A connector configuration reduced to its id and its type tag; the
    document is the id, and an empty document does not parse. *)
Definition Config : Type := (string * string)%type.

Definition jsonConfig : JSON Config :=
  {| json_Marshal := fun cfg => Ok (bytes_of_string (fst cfg));
     json_Unmarshal := fun data cfg =>
       match data with
       | [] => Err (json_Error "unexpected end of JSON input")
       | _ => Ok (string_of_bytes data, snd cfg)
       end |}.

Definition connectorConfig : ConnectorConfig Config :=
  {| ConnectorID := fst; ConnectorType := snd; config_JSON := jsonConfig |}.

Definition registry : ConnectorRegistry Config :=
  [("X", ("", "X")); ("Y", ("", "Y"))].

Definition cfgA : Config := ("a", "X").
Definition cfgB : Config := ("b", "Y").
Definition cfgC : Config := ("c", "X").

(** A row of a registered type, and one whose type nobody registered. *)
Definition rowA : connectorConfigModel :=
  {| connectorConfigModel_ID := "a";
     connectorConfigModel_Type := "X";
     connectorConfigModel_Config := "a" |}.

Definition rowLdap : connectorConfigModel :=
  {| connectorConfigModel_ID := "z";
     connectorConfigModel_Type := "ldap";
     connectorConfigModel_Config := "z" |}.

Definition pgUniqueViolation (err : error) : bool :=
  match err with
  | UniqueViolation _ => true
  | _ => false
  end.

(** Empty tables, a registered checker, plenty of entropy, no faults. *)
Definition world0 : World :=
  {| client_identity := [];
     connector_config := [];
     open_tx := None;
     alreadyExistsCheckers := [pgUniqueViolation];
     entropy := repeat x2a 200;
     faults := [] |}.

Definition client1 : client.Client Metadata :=
  {| client.Credentials := {| oidc.ID := "client-1"; oidc.Secret := "" |};
     client.Metadata := "https://example.com/callback";
     client.Admin := false |}.

(** Same id as [client1], everything else different. *)
Definition client1' : client.Client Metadata :=
  {| client.Credentials := {| oidc.ID := "client-1"; oidc.Secret := "" |};
     client.Metadata := "https://other.example/cb";
     client.Admin := true |}.

(** A client that brings its own secret, the encoding of ["secret"]. *)
Definition client2 : client.Client Metadata :=
  {| client.Credentials := {| oidc.ID := "client-2"; oidc.Secret := "c2VjcmV0" |};
     client.Metadata := "https://example.org/cb";
     client.Admin := false |}.

Definition seeded (id secret : string) : client.Client Metadata :=
  {| client.Credentials := {| oidc.ID := id; oidc.Secret := secret |};
     client.Metadata := "";
     client.Admin := false |}.

(** Five clients for a batch, the third without a secret. *)
Definition batch5 : list (client.Client Metadata) :=
  [seeded "a" "YQ=="; seeded "b" "Yg=="; seeded "c" "";
   seeded "d" "ZA=="; seeded "e" "ZQ=="].

End Demo.

(** ** email/smtp.go: the SMTP emailer configuration *)

Module email.

Definition SmtpEmailerType : string := "smtp".

Record SmtpEmailerConfig : Type := {
  Host : string;
  Port : Z;
  Auth : string;
  Username : string;
  Password : string;
  FromAddr : string
}.

(** [SmtpEmailerConfig{}] *)
Definition zeroConfig : SmtpEmailerConfig :=
  {| Host := ""; Port := 0%Z; Auth := ""; Username := ""; Password := ""; FromAddr := "" |}.

Definition EmailerType (cfg : SmtpEmailerConfig) : string := SmtpEmailerType.

Definition EmailerID (cfg : SmtpEmailerConfig) : string := SmtpEmailerType.

(** gopkg.in/gomail.v2: the fields of [gomail.Dialer] that a caller sets
    by name; a struct literal leaves the ones it does not name at their
    zero value. *)
Record Dialer : Type := {
  Dialer_Host : string;
  Dialer_Port : Z;
  Dialer_Username : string;
  Dialer_Password : string;
  Dialer_SSL : bool
}.

(** [gomail.NewPlainDialer(host, port, username, password)] *)
Class Gomail : Type :=
  NewPlainDialer : string -> Z -> string -> string -> Dialer.

Record smtpEmailer : Type := {
  smtpEmailer_dialer : Dialer;
  smtpEmailer_from : string
}.

Definition doubleQuote : string := String (ascii_of_nat 34) EmptyString.

(** The text [missing "from" field in email config]. *)
Definition missingFrom : string :=
  "missing " ++ doubleQuote ++ "from" ++ doubleQuote ++ " field in email config".

Definition Emailer {G : Gomail} (cfg : SmtpEmailerConfig) (fromAddr : string)
  : result smtpEmailer :=
  let from := FromAddr cfg in
  let from := if String.eqb from "" then fromAddr else from in
  if String.eqb from ""
  then Err (errors_New missingFrom)
  else
    let dialer :=
      if String.eqb (Auth cfg) "plain"
      then NewPlainDialer (Host cfg) (Port cfg) (Username cfg) (Password cfg)
      else {| Dialer_Host := Host cfg; Dialer_Port := Port cfg;
              Dialer_Username := ""; Dialer_Password := ""; Dialer_SSL := false |} in
    Ok {| smtpEmailer_dialer := dialer; smtpEmailer_from := from |}.

(** [(cfg *SmtpEmailerConfig) UnmarshalJSON(data)]: the receiver after the
    call, and the error.  The [JSON] instance is encoding/json on the
    method-less twin type [smtpEmailerConfig], that is, the plain decoding
    of the six fields. *)
Definition UnmarshalJSON {J : JSON SmtpEmailerConfig} (data : list byte)
  (cfg : SmtpEmailerConfig) : SmtpEmailerConfig * option error :=
  let smtpCfg := zeroConfig in
  match json_Unmarshal data smtpCfg with
  | Err err => (cfg, Some err)
  | Ok smtpCfg =>
      if String.eqb (Host smtpCfg) ""
      then (cfg, Some (errors_New "must set SMTP host"))
      else if Z.eqb (Port smtpCfg) 0
      then (cfg, Some (errors_New "must set SMTP port"))
      else (smtpCfg, None)
  end.

(** The plain decoding reads back what the plain encoding wrote for [cfg]. *)
Definition readsBack {J : JSON SmtpEmailerConfig} (cfg : SmtpEmailerConfig) : Prop :=
  forall data, json_Marshal cfg = Ok data -> json_Unmarshal data zeroConfig = Ok cfg.

End email.

(** ** Further vocabulary *)

(** bcrypt looks at the first 72 bytes of a password and no further, as
    the comment on [maxSecretLength] has it. *)
Definition bcrypt_truncates {B : Bcrypt} : Prop :=
  forall hash password,
    bcrypt_compare hash password = bcrypt_compare hash (firstn maxSecretLength password).

(** A row without its admin flag. *)
Definition sansFlag (m : clientModel) : string * list byte * string :=
  (clientModel_ID m, clientModel_Secret m, clientModel_Metadata m).

Definition clientID {ClientMetadata : Type} (c : client.Client ClientMetadata) : string :=
  oidc.ID (client.Credentials c).

Definition findConnector (id : string) (rows : list connectorConfigModel)
  : list connectorConfigModel :=
  filter (fun m => String.eqb (connectorConfigModel_ID m) id) rows.

(** ** Further stand-ins *)

Module Demo2.

(** A generator that hands out 73 bytes where 72 is the most that
    [Authenticate] accepts. *)
Definition longGenerator : SecretGenerator := RandBytes 73.

(** Two clients that bring their secrets: ["a"], and 73 times ["*"]. *)
Definition short : client.Client Demo.Metadata := Demo.seeded "short" "YQ==".

Definition long : client.Client Demo.Metadata :=
  Demo.seeded "long" (Base64.EncodeToString (repeat x2a 73)).

(** One row, with the tables otherwise as in [Demo.world0]. *)
Definition adminRow : clientModel :=
  {| clientModel_ID := "ops";
     clientModel_Secret := repeat x2a 88;
     clientModel_Metadata := "https://ops.example/cb";
     clientModel_DexAdmin := false |}.

Definition worldOps : World := set_client_identity [adminRow] Demo.world0.

(** The same world with no checker registered. *)
Definition worldNoChecker : World := set_alreadyExistsCheckers [] Demo.world0.

Definition smtpCfg : email.SmtpEmailerConfig :=
  {| email.Host := "mail.example.com"; email.Port := 587%Z; email.Auth := "login";
     email.Username := "dex"; email.Password := "hunter2"; email.FromAddr := "" |}.

Definition withHost (host : string) (cfg : email.SmtpEmailerConfig) : email.SmtpEmailerConfig :=
  {| email.Host := host; email.Port := email.Port cfg; email.Auth := email.Auth cfg;
     email.Username := email.Username cfg; email.Password := email.Password cfg;
     email.FromAddr := email.FromAddr cfg |}.

(** A document that holds the host alone, the rest being that of [smtpCfg]. *)
Definition jsonSmtp : JSON email.SmtpEmailerConfig :=
  {| json_Marshal := fun cfg => Ok (bytes_of_string (email.Host cfg));
     json_Unmarshal := fun data _ => Ok (withHost (string_of_bytes data) smtpCfg) |}.

End Demo2.

(** ** A codec that checks what it reads *)

Module Validating.

(** Metadata reduced to one text field, the redirect URI.  Marshal writes
    whatever it is given; Unmarshal, like the UnmarshalJSON of
    [oidc.ClientMetadata], validates what it decoded and refuses metadata
    that names no redirect URI, which is what the zero value is. *)
Definition jsonMetadata : JSON Demo.Metadata :=
  {| json_Marshal := fun md => Ok (bytes_of_string md);
     json_Unmarshal := fun data _ =>
       match data with
       | [] => Err (errors_New "zero redirect URLs")
       | _ => Ok (string_of_bytes data)
       end |}.

(** A client whose metadata is the zero value. *)
Definition bare : client.Client Demo.Metadata := Demo.seeded "bare" "".

End Validating.

(** * Properties *)

(** ** The base64 codec *)

Module Base64Facts.
Import Base64.

Local Open Scope N_scope.

Lemma dec6_enc6 (i : N) : i < 64 -> dec6 (enc6 i) = Some i.
Proof.
  intros Hi.
  assert (Hall : forallb (fun n => match dec6 (enc6 (N.of_nat n)) with
                                   | Some j => N.eqb j (N.of_nat n)
                                   | None => false
                                   end) (seq 0 64) = true) by (vm_compute; reflexivity).
  rewrite forallb_forall in Hall.
  specialize (Hall (N.to_nat i)).
  rewrite N2Nat.id in Hall.
  assert (Hin : In (N.to_nat i) (seq 0 64)) by (apply in_seq; lia).
  specialize (Hall Hin).
  destruct (dec6 (enc6 i)) as [j|]; [|discriminate].
  apply N.eqb_eq in Hall. now subst.
Qed.

Lemma enc6_not_pad (i : N) : i < 64 -> Ascii.eqb (enc6 i) padChar = false.
Proof.
  intros Hi.
  assert (Hall : forallb (fun n => negb (Ascii.eqb (enc6 (N.of_nat n)) padChar))
                         (seq 0 64) = true) by (vm_compute; reflexivity).
  rewrite forallb_forall in Hall.
  specialize (Hall (N.to_nat i)).
  rewrite N2Nat.id in Hall.
  apply negb_true_iff, Hall, in_seq. lia.
Qed.

Lemma enc6_not_newline (i : N) : i < 64 -> isNewline (enc6 i) = false.
Proof.
  intros Hi.
  assert (Hall : forallb (fun n => negb (isNewline (enc6 (N.of_nat n))))
                         (seq 0 64) = true) by (vm_compute; reflexivity).
  rewrite forallb_forall in Hall.
  specialize (Hall (N.to_nat i)).
  rewrite N2Nat.id in Hall.
  apply negb_true_iff, Hall, in_seq. lia.
Qed.

(** Disjoint bit ranges: or-ing a shifted value onto a small one adds. *)
Lemma lor_shiftl_add (hi lo k : N) :
  lo < 2 ^ k -> N.lor (N.shiftl hi k) lo = hi * 2 ^ k + lo.
Proof.
  intros Hlo.
  rewrite <- N.shiftl_mul_pow2.
  rewrite <- N.lxor_lor, <- N.add_nocarry_lxor; trivial.
  all: apply N.bits_inj; intros n; rewrite N.land_spec, N.bits_0.
  all: destruct (N.ltb_spec n k) as [Hn|Hn].
  all: try (rewrite N.shiftl_spec_low by assumption; reflexivity).
  all: rewrite <- (N.mod_small lo (2 ^ k)) by assumption.
  all: rewrite N.mod_pow2_bits_high by assumption; apply andb_false_r.
Qed.

Lemma group24_arith (a b c : byte) :
  group24 a b c = Byte.to_N a * 65536 + Byte.to_N b * 256 + Byte.to_N c.
Proof.
  pose proof (Byte.to_N_bounded a) as Ha.
  pose proof (Byte.to_N_bounded b) as Hb.
  pose proof (Byte.to_N_bounded c) as Hc.
  unfold group24.
  rewrite (lor_shiftl_add (Byte.to_N a) (N.shiftl (Byte.to_N b) 8) 16)
    by (rewrite N.shiftl_mul_pow2; change (2 ^ 8) with 256; change (2 ^ 16) with 65536; lia).
  replace (Byte.to_N a * 2 ^ 16 + N.shiftl (Byte.to_N b) 8)
    with (N.shiftl (Byte.to_N a * 256 + Byte.to_N b) 8)
    by (rewrite !N.shiftl_mul_pow2; change (2 ^ 8) with 256; change (2 ^ 16) with 65536; lia).
  rewrite lor_shiftl_add by (change (2 ^ 8) with 256; lia).
  change (2 ^ 8) with 256. lia.
Qed.

Lemma val24_arith (d0 d1 d2 d3 : N) :
  d1 < 64 -> d2 < 64 -> d3 < 64 ->
  val24 d0 d1 d2 d3 = d0 * 262144 + d1 * 4096 + d2 * 64 + d3.
Proof.
  intros H1 H2 H3. unfold val24.
  rewrite (lor_shiftl_add d0 (N.shiftl d1 12) 18)
    by (rewrite N.shiftl_mul_pow2; change (2 ^ 12) with 4096; change (2 ^ 18) with 262144; lia).
  replace (d0 * 2 ^ 18 + N.shiftl d1 12) with (N.shiftl (d0 * 64 + d1) 12)
    by (rewrite !N.shiftl_mul_pow2; change (2 ^ 12) with 4096; change (2 ^ 18) with 262144; lia).
  rewrite (lor_shiftl_add _ (N.shiftl d2 6) 12)
    by (rewrite N.shiftl_mul_pow2; change (2 ^ 6) with 64; change (2 ^ 12) with 4096; lia).
  replace ((d0 * 64 + d1) * 2 ^ 12 + N.shiftl d2 6) with (N.shiftl ((d0 * 64 + d1) * 64 + d2) 6)
    by (rewrite !N.shiftl_mul_pow2; change (2 ^ 6) with 64; change (2 ^ 12) with 4096; lia).
  rewrite lor_shiftl_add by (change (2 ^ 6) with 64; lia).
  change (2 ^ 6) with 64. lia.
Qed.

Lemma land_63 (n : N) : N.land n 63 = n mod 64.
Proof. change 63 with (N.ones 6). now rewrite N.land_ones. Qed.

Lemma land_255 (n : N) : N.land n 255 = n mod 256.
Proof. change 255 with (N.ones 8). now rewrite N.land_ones. Qed.

Lemma byte_of_N_spec (n : N) (b : byte) : n mod 256 = Byte.to_N b -> byte_of_N n = b.
Proof.
  intros H. unfold byte_of_N. now rewrite land_255, H, Byte.of_to_N.
Qed.

Lemma sextet_index_lt (v k : N) : N.land (N.shiftr v k) 63 < 64.
Proof. rewrite land_63. now apply N.mod_lt. Qed.

Ltac Zify.zify_post_hook ::= Z.to_euclidean_division_equations.

(** A full quantum: three bytes through four sextets and back. *)
Lemma quantum3 (a b c : byte) :
  let v := group24 a b c in
  let d k := N.land (N.shiftr v k) 63 in
  let w := val24 (d 18) (d 12) (d 6) (d 0) in
  byte_of_N (N.shiftr w 16) = a /\ byte_of_N (N.shiftr w 8) = b /\ byte_of_N w = c.
Proof.
  intros v d w.
  assert (Hw : w = v).
  { subst w d. rewrite val24_arith by apply sextet_index_lt.
    rewrite !land_63, !N.shiftr_div_pow2.
    change (2 ^ 18) with 262144; change (2 ^ 12) with 4096;
      change (2 ^ 6) with 64; change (2 ^ 0) with 1.
    assert (Hv : v < 16777216).
    { subst v. rewrite group24_arith.
      pose proof (Byte.to_N_bounded a); pose proof (Byte.to_N_bounded b);
        pose proof (Byte.to_N_bounded c). lia. }
    lia. }
  rewrite Hw. subst v. rewrite group24_arith.
  pose proof (Byte.to_N_bounded a); pose proof (Byte.to_N_bounded b);
    pose proof (Byte.to_N_bounded c).
  repeat split; apply byte_of_N_spec; rewrite ?N.shiftr_div_pow2;
    change (2 ^ 16) with 65536; change (2 ^ 8) with 256; lia.
Qed.

(** The two padded final quanta. *)
Lemma quantum1 (a : byte) :
  let v := group24 a x00 x00 in
  let d k := N.land (N.shiftr v k) 63 in
  byte_of_N (N.shiftr (val24 (d 18) (d 12) 0 0) 16) = a.
Proof.
  intros v d. subst d.
  rewrite val24_arith by (try apply sextet_index_lt; lia).
  rewrite !land_63, !N.shiftr_div_pow2.
  subst v. rewrite group24_arith. change (Byte.to_N x00) with 0.
  pose proof (Byte.to_N_bounded a).
  apply byte_of_N_spec.
  change (2 ^ 18) with 262144; change (2 ^ 12) with 4096; change (2 ^ 16) with 65536.
  lia.
Qed.

Lemma quantum2 (a b : byte) :
  let v := group24 a b x00 in
  let d k := N.land (N.shiftr v k) 63 in
  let w := val24 (d 18) (d 12) (d 6) 0 in
  byte_of_N (N.shiftr w 16) = a /\ byte_of_N (N.shiftr w 8) = b.
Proof.
  intros v d w. subst w d.
  rewrite val24_arith by (try apply sextet_index_lt; lia).
  rewrite !land_63, !N.shiftr_div_pow2.
  subst v. rewrite group24_arith. change (Byte.to_N x00) with 0.
  pose proof (Byte.to_N_bounded a); pose proof (Byte.to_N_bounded b).
  split; apply byte_of_N_spec;
    change (2 ^ 18) with 262144; change (2 ^ 12) with 4096; change (2 ^ 6) with 64;
    change (2 ^ 16) with 65536; change (2 ^ 8) with 256; lia.
Qed.

(** Induction three bytes at a time, the way [encode] recurses. *)
Lemma list_ind3 {A : Type} (P : list A -> Prop) :
  P [] -> (forall a, P [a]) -> (forall a b, P [a; b]) ->
  (forall a b c rest, P rest -> P (a :: b :: c :: rest)) ->
  forall l, P l.
Proof.
  intros H0 H1 H2 H3.
  fix IH 1.
  intros [|a [|b [|c rest]]].
  - exact H0.
  - apply H1.
  - apply H2.
  - apply H3, IH.
Qed.

Lemma dec6_sextet (v k : N) : dec6 (sextet v k) = Some (N.land (N.shiftr v k) 63).
Proof. apply dec6_enc6, sextet_index_lt. Qed.

Lemma sextet_not_pad (v k : N) : Ascii.eqb (sextet v k) padChar = false.
Proof. apply enc6_not_pad, sextet_index_lt. Qed.

Lemma sextet_not_newline (v k : N) : isNewline (sextet v k) = false.
Proof. apply enc6_not_newline, sextet_index_lt. Qed.

Lemma decode_encode (src : list byte) : decode (encode src) = Ok src.
Proof.
  induction src as [|a|a b|a b c rest IH] using list_ind3.
  - reflexivity.
  - cbn [encode decode].
    rewrite !dec6_sextet. cbn [Ascii.eqb padChar isNil andb].
    change (Ascii.eqb "=" "=") with true. cbn [andb].
    now rewrite (quantum1 a).
  - cbn [encode decode].
    rewrite !dec6_sextet, sextet_not_pad.
    change (Ascii.eqb padChar padChar) with true. cbn [isNil].
    destruct (quantum2 a b) as [-> ->]. reflexivity.
  - cbn [encode decode].
    rewrite !dec6_sextet, !sextet_not_pad, IH.
    destruct (quantum3 a b c) as (-> & -> & ->). reflexivity.
Qed.

Lemma encode_has_no_newline (src : list byte) :
  filter (fun c => negb (isNewline c)) (encode src) = encode src.
Proof.
  induction src as [|a|a b|a b c rest IH] using list_ind3;
    cbn [encode filter]; rewrite ?sextet_not_newline; cbn [negb];
    change (isNewline padChar) with false; cbn [negb]; congruence.
Qed.

(** What the store relies on: a secret survives its transport encoding. *)
Lemma DecodeString_EncodeToString (src : list byte) :
  DecodeString (EncodeToString src) = Ok src.
Proof.
  unfold DecodeString, EncodeToString.
  rewrite list_ascii_of_string_of_list_ascii, encode_has_no_newline.
  apply decode_encode.
Qed.

End Base64Facts.

(** ** The executor *)

Arguments hasClient : simpl never.
Arguments findClient : simpl never.
Arguments rowsOf : simpl never.
Arguments hasConnector : simpl never.
Arguments nextFault : simpl never.
Arguments Base64.DecodeString : simpl never.
Arguments Base64.EncodeToString : simpl never.
Arguments string_of_bytes : simpl never.
Arguments bytes_of_string : simpl never.

Section ExecutorFacts.

Lemma hasClient_findClient_None (id : string) (rows : list clientModel) :
  hasClient id rows = false -> findClient id rows = None.
Proof.
  unfold hasClient, findClient.
  induction rows as [|m rows IH]; cbn; [reflexivity|].
  destruct (String.eqb (clientModel_ID m) id); cbn; [discriminate|exact IH].
Qed.

Lemma hasClient_rowsOf_nil (id : string) (rows : list clientModel) :
  hasClient id rows = false -> rowsOf id rows = [].
Proof.
  unfold hasClient, rowsOf.
  induction rows as [|m rows IH]; cbn; [reflexivity|].
  destruct (String.eqb (clientModel_ID m) id); cbn; [discriminate|exact IH].
Qed.

(** A row just appended under a fresh key is the one a lookup finds. *)
Lemma findClient_app_fresh (cim : clientModel) (rows : list clientModel) :
  hasClient (clientModel_ID cim) rows = false ->
  findClient (clientModel_ID cim) (rows ++ [cim]) = Some cim.
Proof.
  unfold hasClient, findClient.
  induction rows as [|m rows IH]; cbn.
  - now rewrite String.eqb_refl.
  - destruct (String.eqb (clientModel_ID m) (clientModel_ID cim)); cbn;
      [discriminate|exact IH].
Qed.

Lemma rowsOf_app_fresh (cim : clientModel) (rows : list clientModel) :
  hasClient (clientModel_ID cim) rows = false ->
  rowsOf (clientModel_ID cim) (rows ++ [cim]) = [cim].
Proof.
  intros H. unfold rowsOf. rewrite filter_app.
  fold (rowsOf (clientModel_ID cim) rows).
  rewrite (hasClient_rowsOf_nil _ _ H). cbn.
  now rewrite String.eqb_refl.
Qed.

(** Appending under a key that was free keeps the keys distinct. *)
Lemma unique_ids_app_fresh (cim : clientModel) (rows : list clientModel) :
  hasClient (clientModel_ID cim) rows = false ->
  NoDup (map clientModel_ID rows) ->
  NoDup (map clientModel_ID (rows ++ [cim])).
Proof.
  unfold hasClient.
  induction rows as [|m rows IH]; cbn; intros Hfree Hnd.
  - constructor; [intros []|constructor].
  - apply orb_false_elim in Hfree as [Hm Hrest].
    inversion Hnd as [|? ? Hnotin Hnd']; subst.
    constructor; [|now apply IH].
    rewrite map_app, in_app_iff. cbn. intros [Hin|[Heq|[]]]; [contradiction|].
    rewrite Heq, String.eqb_refl in Hm. discriminate.
Qed.

Lemma hasClient_app_self (cim : clientModel) (rows : list clientModel) :
  hasClient (clientModel_ID cim) (rows ++ [cim]) = true.
Proof.
  unfold hasClient. rewrite existsb_app. cbn.
  rewrite String.eqb_refl. now rewrite orb_true_r.
Qed.

(** What a call to the storage layer can do to the world: consume one
    entry of the fault schedule, nothing else. *)
Lemma db_call_inv (w : World) (r : result unit) (w' : World) :
  db_call w = (r, w') ->
  (r = Ok tt /\ nextFault w = None \/ exists e, r = Err e /\ nextFault w = Some e) /\
  w' = set_faults (tl (faults w)) w.
Proof.
  unfold db_call, nextFault.
  destruct w as [ci cc tx ch en fs]; cbn.
  destruct fs as [|[e|] rest]; cbn; intros [= <- <-]; split; try reflexivity.
  - left; split; reflexivity.
  - right; exists e; split; reflexivity.
  - left; split; reflexivity.
Qed.

Lemma db_call_served (w : World) :
  nextFault w = None -> db_call w = (Ok tt, set_faults (tl (faults w)) w).
Proof.
  intros Hn. destruct (db_call w) as [r w'] eqn:E.
  destruct (db_call_inv _ _ _ E) as [[[-> _]|(e & _ & He)] ->]; [reflexivity|].
  congruence.
Qed.

Lemma db_call_faulted (w : World) (e : error) :
  nextFault w = Some e -> db_call w = (Err e, set_faults (tl (faults w)) w).
Proof.
  intros Hn. destruct (db_call w) as [r w'] eqn:E.
  destruct (db_call_inv _ _ _ E) as [[[_ He]|(e' & -> & He)] ->]; congruence.
Qed.

(** The registry answers yes exactly when one of the registered checkers does. *)
Lemma isAlreadyExistsErr_iff (err : error) (w : World) :
  isAlreadyExistsErr err w = true <->
  exists checker, In checker (alreadyExistsCheckers w) /\ checker err = true.
Proof.
  unfold isAlreadyExistsErr.
  induction (alreadyExistsCheckers w) as [|c rest IH]; cbn.
  - split; [discriminate|]. now intros (? & [] & _).
  - destruct (c err) eqn:Hc.
    + split; [|reflexivity]. intros _. exists c. auto.
    + rewrite IH. split.
      * intros (c' & Hin & Hc'). exists c'. auto.
      * intros (c' & [<-|Hin] & Hc'); [congruence|]. exists c'. auto.
Qed.

Lemma registerAlreadyExistsChecker_recognises (f : error -> bool) (err : error) (w : World) :
  f err = true -> isAlreadyExistsErr err (registerAlreadyExistsChecker f w) = true.
Proof.
  intros Hf. apply isAlreadyExistsErr_iff. exists f. split; [|exact Hf].
  unfold registerAlreadyExistsChecker. cbn. apply in_or_app. right. now left.
Qed.

End ExecutorFacts.

(** ** Frames: which part of the world each step can touch *)

Ltac run := unfold bind, ret, fail, lift, defer, liftRand in *.

Lemma bind_run {A C : Type} (m : M A) (k : A -> M C) (w : World) :
  bind m k w =
  match m w with
  | (Ok a, w') => k a w'
  | (Err e, w') => (Err e, w')
  end.
Proof. reflexivity. Qed.

Lemma durable_inv (w w' : World) :
  durable w' = durable w ->
  client_identity w' = client_identity w /\
  connector_config w' = connector_config w /\
  open_tx w' = open_tx w.
Proof. unfold durable. intros [= -> -> ->]. auto. Qed.

Section Frames.
Context {B : Bcrypt} {ClientMetadata : Type} {JM : JSON ClientMetadata}.

Lemma liftRand_frame {A : Type} (g : Rand A) (w : World) :
  durable (snd (liftRand g w)) = durable w /\
  alreadyExistsCheckers (snd (liftRand g w)) = alreadyExistsCheckers w /\
  faults (snd (liftRand g w)) = faults w.
Proof.
  unfold liftRand. destruct (g (entropy w)) as [r e']. now cbn.
Qed.

Lemma newClientModel_frame (cli : client.Client ClientMetadata) (w : World) :
  durable (snd (newClientModel cli w)) = durable w /\
  alreadyExistsCheckers (snd (newClientModel cli w)) = alreadyExistsCheckers w /\
  faults (snd (newClientModel cli w)) = faults w.
Proof.
  unfold newClientModel, bcrypt_GenerateFromPassword. run.
  destruct (Base64.DecodeString _) as [secretBytes|]; cbn; [|auto].
  destruct (rand_Read bcrypt_saltLength (entropy w)) as [[salt|] e']; cbn; [|auto].
  destruct (json_Marshal _); cbn; auto.
Qed.

(** An insert either appends its row under a key that was free, or fails
    and leaves the table as it was. *)
Lemma exec_Insert_inv (cim : clientModel) (w : World) (r : result unit) (w' : World) :
  exec_Insert cim w = (r, w') ->
  connector_config w' = connector_config w /\ open_tx w' = open_tx w /\
  alreadyExistsCheckers w' = alreadyExistsCheckers w /\ entropy w' = entropy w /\
  faults w' = tl (faults w) /\
  (r = Ok tt /\ nextFault w = None /\
   hasClient (clientModel_ID cim) (client_identity w) = false /\
   client_identity w' = client_identity w ++ [cim]
   \/
   client_identity w' = client_identity w /\
   exists e, r = Err e /\
     (nextFault w = Some e \/
      nextFault w = None /\ e = UniqueViolation clientTableName /\
      hasClient (clientModel_ID cim) (client_identity w) = true)).
Proof.
  unfold exec_Insert. run.
  destruct (db_call w) as [r0 w0] eqn:E.
  apply db_call_inv in E as [Hr ->].
  destruct Hr as [[-> Hnf]|(e & -> & Hnf)]; cbn.
  - destruct (hasClient _ _) eqn:Hhas; intros [= <- <-]; cbn; repeat split.
    + right. split; [reflexivity|]. eexists; split; [reflexivity|]. right. auto.
    + left. auto.
  - intros [= <- <-]; cbn; repeat split.
    right. split; [reflexivity|]. eexists; split; [reflexivity|]. now left.
Qed.

Lemma insertClients_frame (clients : list (client.Client ClientMetadata)) (w : World) :
  connector_config (snd (insertClients clients w)) = connector_config w /\
  open_tx (snd (insertClients clients w)) = open_tx w.
Proof.
  revert w. induction clients as [|c rest IH]; intros w; cbn [insertClients].
  - now cbn.
  - destruct (String.eqb _ ""); [now cbn|].
    rewrite bind_run.
    pose proof (newClientModel_frame c w) as (Hd & _ & _).
    destruct (newClientModel c w) as [[cm|e] w1]; cbn [snd] in Hd;
      apply durable_inv in Hd as (_ & Hcc & Htx); [|now cbn].
    rewrite bind_run.
    destruct (exec_Insert cm w1) as [[u|e] w2] eqn:E;
      apply exec_Insert_inv in E as (Hcc2 & Htx2 & _).
    + destruct (IH w2) as [-> ->]. split; congruence.
    + cbn. split; congruence.
Qed.

(** An item without a secret stops the loop with an error, if nothing
    stopped it earlier. *)
Lemma insertClients_empty_secret (clients : list (client.Client ClientMetadata)) (w : World) :
  Exists (fun c => oidc.Secret (client.Credentials c) = "") clients ->
  is_Err (fst (insertClients clients w)).
Proof.
  intros Hex. revert w.
  induction clients as [|c rest IH]; intros w; [inversion Hex|].
  cbn [insertClients].
  destruct (String.eqb _ "") eqn:Heq; [exact I|].
  inversion Hex as [? ? Hc|? ? Hrest]; subst.
  - rewrite Hc in Heq. discriminate.
  - unfold bind.
    destruct (newClientModel c w) as [[cm|e] w1]; [|exact I].
    destruct (exec_Insert cm w1) as [[u|e] w2]; [|exact I].
    now apply IH.
Qed.

End Frames.

(** ** Transactions *)

Section TransactionFacts.

Lemma begin_inv (w : World) (r : result unit) (w' : World) :
  begin w = (r, w') ->
  tables w' = tables w /\
  alreadyExistsCheckers w' = alreadyExistsCheckers w /\
  entropy w' = entropy w /\
  faults w' = tl (faults w) /\
  (r = Ok tt /\ nextFault w = None /\ open_tx w' = Some (tables w)
   \/
   exists e, r = Err e /\ nextFault w = Some e /\ open_tx w' = open_tx w).
Proof.
  unfold begin. rewrite bind_run.
  destruct (db_call w) as [r0 w0] eqn:E.
  apply db_call_inv in E as [Hr ->].
  destruct Hr as [[-> Hnf]|(e & -> & Hnf)]; intros [= <- <-]; cbn; repeat split.
  - left. auto.
  - right. eauto.
Qed.

(** Rolling back an open transaction brings back the tables as they were
    when it began. *)
Lemma tx_Rollback_open (w : World) (img : list clientModel * list connectorConfigModel) :
  open_tx w = Some img ->
  tables (tx_Rollback w) = img /\ open_tx (tx_Rollback w) = None.
Proof.
  unfold tx_Rollback. intros ->. destruct img. now cbn.
Qed.

(** After the transaction is over, [Rollback] is a no-op. *)
Lemma tx_Rollback_done (w : World) : open_tx w = None -> tx_Rollback w = w.
Proof. unfold tx_Rollback. now intros ->. Qed.

Lemma tx_Commit_inv (w : World) (img : list clientModel * list connectorConfigModel)
  (r : result unit) (w' : World) :
  open_tx w = Some img ->
  tx_Commit w = (r, w') ->
  open_tx w' = None /\
  (r = Ok tt /\ nextFault w = None /\ tables w' = tables w
   \/
   exists e, r = Err e /\ nextFault w = Some e /\ tables w' = img).
Proof.
  unfold tx_Commit. intros ->.
  destruct (db_call w) as [r0 w0] eqn:E.
  apply db_call_inv in E as [Hr ->].
  destruct Hr as [[-> Hnf]|(e & -> & Hnf)]; intros [= <- <-]; cbn; split; trivial.
  - left. auto.
  - right. exists e. destruct img. auto.
Qed.

End TransactionFacts.

(** ** New *)

Section Create.
Context {B : Bcrypt} {ClientMetadata : Type} {JM : JSON ClientMetadata}.

Lemma rand_Read_inv (n : nat) (e : list byte) (r : result (list byte)) (e' : list byte) :
  rand_Read n e = (r, e') ->
  (exists bs, r = Ok bs /\ List.length bs = n /\ n <= List.length e)
  \/ (r = Err EntropyError /\ List.length e < n).
Proof.
  unfold rand_Read.
  destruct (Nat.leb n (List.length e)) eqn:Hle; intros [= <- <-].
  - apply Nat.leb_le in Hle. left. exists (firstn n e).
    repeat split; [|exact Hle]. rewrite length_firstn. lia.
  - apply Nat.leb_gt in Hle. right. auto.
Qed.

Lemma newClientModel_Ok_inv (cli : client.Client ClientMetadata) (w : World)
  (cim : clientModel) (w' : World) :
  newClientModel cli w = (Ok cim, w') ->
  exists secret salt bmeta,
    Base64.DecodeString (oidc.Secret (client.Credentials cli)) = Ok secret /\
    List.length salt = bcrypt_saltLength /\
    json_Marshal (client.Metadata cli) = Ok bmeta /\
    cim = modelOf cli secret salt bmeta.
Proof.
  unfold newClientModel, bcrypt_GenerateFromPassword. run.
  destruct (Base64.DecodeString _) as [secret|]; [|discriminate].
  destruct (rand_Read bcrypt_saltLength (entropy w)) as [[salt|] e'] eqn:Er; [|discriminate].
  destruct (json_Marshal _) as [bmeta|]; [|discriminate].
  intros [= <- <-].
  apply rand_Read_inv in Er as [(bs & [= <-] & Hlen & _)|[[=] _]].
  exists secret, salt, bmeta. auto.
Qed.

(** What a successful [New] has done: drawn a secret from the
    repository's generator, inserted the row built from that secret under
    a key that was free, and returned the secret in its transport form. *)
Lemma New_Ok_inv (r : clientRepo) (cli : client.Client ClientMetadata) (w : World)
  (creds : oidc.ClientCredentials) (w' : World) :
  clientRepo.New r cli w = (Ok creds, w') ->
  exists secret e1 salt bmeta,
    secretGenerator r (entropy w) = (Ok secret, e1) /\
    List.length salt = bcrypt_saltLength /\
    json_Marshal (client.Metadata cli) = Ok bmeta /\
    hasClient (oidc.ID (client.Credentials cli)) (client_identity w) = false /\
    client_identity w' = client_identity w ++ [modelOf cli secret salt bmeta] /\
    connector_config w' = connector_config w /\
    open_tx w' = open_tx w /\
    alreadyExistsCheckers w' = alreadyExistsCheckers w /\
    faults w' = tl (faults w) /\
    creds = {| oidc.ID := oidc.ID (client.Credentials cli);
               oidc.Secret := Base64.EncodeToString secret |}.
Proof.
  unfold clientRepo.New. rewrite bind_run.
  pose proof (liftRand_frame (secretGenerator r) w) as (Hd0 & Hch0 & Hf0).
  unfold liftRand in *.
  destruct (secretGenerator r (entropy w)) as [[secret|] e1] eqn:Eg; [|discriminate].
  cbn [fst snd] in *. rewrite bind_run.
  set (w0 := set_entropy e1 w) in *.
  set (cli' := clientRepo.withSecret (Base64.EncodeToString secret) cli).
  pose proof (newClientModel_frame cli' w0) as (Hd1 & Hch1 & Hf1).
  destruct (newClientModel cli' w0) as [[cim|] w1] eqn:Em; [|discriminate].
  cbn [fst snd] in *.
  apply newClientModel_Ok_inv in Em as (secret' & salt & bmeta & Hdec & Hsalt & Hjs & ->).
  subst cli'. cbn in Hdec, Hjs.
  rewrite Base64Facts.DecodeString_EncodeToString in Hdec. injection Hdec as <-.
  destruct (exec_Insert _ w1) as [[u|e] w2] eqn:Ei.
  2:{ destruct (isAlreadyExistsErr e w2); discriminate. }
  intros [= <- <-].
  apply exec_Insert_inv in Ei
    as (Hcc & Htx & Hch & _ & Hf & [(_ & _ & Hfree & Hrows)|(_ & e' & [=] & _)]).
  apply durable_inv in Hd0 as (Hci0 & Hcc0 & Htx0).
  apply durable_inv in Hd1 as (Hci1 & Hcc1 & Htx1).
  cbn in Hfree.
  exists secret, e1, salt, bmeta.
  repeat split; try congruence.
  rewrite Hrows. f_equal; congruence.
Qed.

(** Whatever makes [New] fail, the tables stay as they were. *)
Lemma New_Err_tables (r : clientRepo) (cli : client.Client ClientMetadata) (w : World)
  (e : error) (w' : World) :
  clientRepo.New r cli w = (Err e, w') -> tables w' = tables w.
Proof.
  unfold clientRepo.New. rewrite bind_run.
  pose proof (liftRand_frame (secretGenerator r) w) as (Hd0 & _).
  destruct (liftRand (secretGenerator r) w) as [[secret|] w0]; cbn [snd] in Hd0;
    apply durable_inv in Hd0 as (Hci0 & Hcc0 & _).
  2:{ intros [= <- <-]. unfold tables. congruence. }
  rewrite bind_run.
  set (cli' := clientRepo.withSecret (Base64.EncodeToString secret) cli).
  pose proof (newClientModel_frame cli' w0) as (Hd1 & _).
  destruct (newClientModel cli' w0) as [[cim|] w1]; cbn [snd] in Hd1;
    apply durable_inv in Hd1 as (Hci1 & Hcc1 & _).
  2:{ intros [= <- <-]. unfold tables. congruence. }
  destruct (exec_Insert cim w1) as [[u|e0] w2] eqn:Ei; [discriminate|].
  apply exec_Insert_inv in Ei
    as (Hcc & _ & _ & _ & _ & [([=] & _)|(Hrows & _)]).
  destruct (isAlreadyExistsErr e0 w2); intros [= <- <-]; unfold tables; congruence.
Qed.

End Create.

(** ** NewClientRepoFromClients *)

Section Batch.
Context {B : Bcrypt} {ClientMetadata : Type} {JM : JSON ClientMetadata}.

(** A loop that ran to its end has appended one row per client, in order. *)
Lemma insertClients_Ok_inv (clients : list (client.Client ClientMetadata))
  (w : World) (u : unit) (w' : World) :
  insertClients clients w = (Ok u, w') ->
  exists rows,
    client_identity w' = client_identity w ++ rows /\
    map clientModel_ID rows = map (fun c => oidc.ID (client.Credentials c)) clients.
Proof.
  revert w. induction clients as [|c rest IH]; intros w; cbn [insertClients].
  - unfold ret. intros [= _ <-]. exists []. now rewrite app_nil_r.
  - destruct (String.eqb _ ""); [discriminate|].
    rewrite bind_run.
    pose proof (newClientModel_frame c w) as (Hd & _ & _).
    destruct (newClientModel c w) as [[cm|e] w1] eqn:Em; [|discriminate].
    cbn [snd] in Hd. apply durable_inv in Hd as (Hci & _ & _).
    apply newClientModel_Ok_inv in Em as (secret & salt & bmeta & _ & _ & _ & ->).
    rewrite bind_run.
    destruct (exec_Insert _ w1) as [[u1|e] w2] eqn:Ei; [|discriminate].
    apply exec_Insert_inv in Ei
      as (_ & _ & _ & _ & _ & [(_ & _ & _ & Hrows)|(_ & e' & [=] & _)]).
    intros Hrest. apply IH in Hrest as (rows & Hrows' & Hids).
    exists (modelOf c secret salt bmeta :: rows). split.
    + rewrite Hrows', Hrows, Hci, <- app_assoc. reflexivity.
    + cbn [map modelOf clientModel_ID]. now rewrite Hids.
Qed.

(** C6.  NewClientRepoFromClients is all-or-nothing.  Whenever it returns
    an error, whichever item or step failed, both tables are exactly what
    they were before the call, so no item before the failing one stays; a
    list holding a client whose secret is the empty string always makes it
    return an error; and when it returns without error, every client of
    the list has its row, in order. *)
Theorem NewClientRepoFromClients_all_or_nothing
  (clients : list (client.Client ClientMetadata)) (w : World)
  (res : result clientRepo) (w' : World) :
  NewClientRepoFromClients clients w = (res, w') ->
  (is_Err res -> tables w' = tables w) /\
  (Exists (fun c => oidc.Secret (client.Credentials c) = "") clients ->
   is_Err res /\ tables w' = tables w) /\
  (forall repo, res = Ok repo ->
   exists rows,
     client_identity w' = client_identity w ++ rows /\
     map clientModel_ID rows = map (fun c => oidc.ID (client.Credentials c)) clients).
Proof.
  unfold NewClientRepoFromClients. rewrite bind_run.
  destruct (begin w) as [[u|e] w1] eqn:Eb;
    apply begin_inv in Eb as (Htab & _ & _ & _ & [(Hr & _ & Htx)|(e' & Hr & _ & _)]);
    try discriminate.
  2:{ intros [= <- <-]. cbn. repeat split; auto. discriminate. }
  unfold defer. rewrite bind_run.
  pose proof (insertClients_frame clients w1) as [_ Htx1].
  pose proof (insertClients_empty_secret clients w1) as Hempty.
  destruct (insertClients clients w1) as [[u1|e1] wa] eqn:Eins; cbn [fst snd] in *.
  - rewrite Htx in Htx1. rewrite bind_run.
    apply insertClients_Ok_inv in Eins as (rows & Hrows & Hids).
    destruct (tx_Commit wa) as [[u2|e2] wb] eqn:Ec;
      apply (tx_Commit_inv _ _ _ _ Htx1) in Ec
        as (Hdone & [(Hr' & _ & Hc)|(e' & Hr' & _ & Hc)]);
      try discriminate.
    + unfold ret. intros [= <- <-]. rewrite (tx_Rollback_done _ Hdone).
      split; [contradiction|]. split; [intros Hex; destruct (Hempty Hex)|].
      intros repo _. exists rows. split; [|exact Hids].
      unfold tables in Hc, Htab. congruence.
    + intros [= <- <-]. rewrite (tx_Rollback_done _ Hdone).
      split; [now intros _|]. split; [intros Hex; destruct (Hempty Hex)|discriminate].
  - intros [= <- <-]. rewrite Htx in Htx1.
    destruct (tx_Rollback_open _ _ Htx1) as [Hback _].
    cbn. split; [now intros _|]. split; [|discriminate].
    intros _. split; [exact I|exact Hback].
Qed.

End Batch.

(** ** SetDexAdmin *)

Section AdminFlag.

Lemma exec_Get_inv (id : string) (w : World) (r : result (option clientModel)) (w' : World) :
  exec_Get id w = (r, w') ->
  durable w' = durable w /\
  (r = Ok (findClient id (client_identity w)) /\ nextFault w = None
   \/
   exists e, r = Err e /\ nextFault w = Some e).
Proof.
  unfold exec_Get. rewrite bind_run.
  destruct (db_call w) as [r0 w0] eqn:E.
  apply db_call_inv in E as [Hr ->].
  destruct Hr as [[-> Hnf]|(e & -> & Hnf)]; intros [= <- <-]; cbn; split; eauto.
Qed.

(** C2, as the code has it.  For every id with no row in client_identity,
    SetDexAdmin writes nothing, both tables being afterwards what they
    were before, and it reports no NotFoundError: it returns nil when the
    storage layer serves its two calls (begin, lookup), and otherwise the
    storage error of the call that failed. *)
Theorem SetDexAdmin_missing_client (clientID : string) (isAdmin : bool) (w : World) :
  hasClient clientID (client_identity w) = false ->
  tables (snd (clientRepo.SetDexAdmin clientID isAdmin w)) = tables w /\
  (storageServes 2 w = true ->
   fst (clientRepo.SetDexAdmin clientID isAdmin w) = Ok tt) /\
  (forall e, fst (clientRepo.SetDexAdmin clientID isAdmin w) = Err e ->
             In (Some e) (firstn 2 (faults w))).
Proof.
  intros Habs. apply hasClient_findClient_None in Habs.
  unfold clientRepo.SetDexAdmin, storageServes. rewrite bind_run.
  destruct (begin w) as [[u|e] w1] eqn:Eb;
    apply begin_inv in Eb as (Htab & _ & _ & Hf & [(Hr & Hnf & Htx)|(e' & Hr & Hnf & _)]);
    try discriminate.
  2:{ injection Hr as <-. cbn [fst snd].
      unfold nextFault in Hnf.
      destruct (faults w) as [|[e0|] rest]; try discriminate.
      injection Hnf as ->. cbn.
      repeat split; [exact Htab|discriminate|]. intros ? [= <-]. now left. }
  unfold defer. rewrite bind_run.
  destruct (exec_Get clientID w1) as [[m|e] w2] eqn:Eg;
    apply exec_Get_inv in Eg as (Hd & [(Hr' & Hnf')|(e' & Hr' & Hnf')]);
    try discriminate;
    apply durable_inv in Hd as (Hci & Hcc & Htx2); rewrite Htx in Htx2.
  - injection Hr' as ->.
    replace (client_identity w1) with (client_identity w)
      by (unfold tables in Htab; congruence).
    rewrite Habs. unfold ret. cbn [fst snd].
    destruct (tx_Rollback_open _ _ Htx2) as [Hback _].
    repeat split; [exact Hback|discriminate].
  - injection Hr' as <-. cbn [fst snd].
    destruct (tx_Rollback_open _ _ Htx2) as [Hback _].
    unfold nextFault in Hnf, Hnf'. rewrite Hf in Hnf'.
    destruct (faults w) as [|[e0|] [|[e1|] rest]]; try discriminate.
    injection Hnf' as ->. cbn.
    repeat split; [exact Hback|discriminate|]. intros ? [= <-]. right. now left.
Qed.

Lemma findClient_Some_ID (id : string) (rows : list clientModel) (cim : clientModel) :
  findClient id rows = Some cim -> clientModel_ID cim = id.
Proof.
  unfold findClient. intros H. apply find_some in H as [_ H].
  now apply String.eqb_eq.
Qed.

Lemma findClient_updated (id : string) (rows : list clientModel) (old new : clientModel) :
  findClient id rows = Some old ->
  clientModel_ID new = id ->
  findClient id
    (map (fun m => if String.eqb (clientModel_ID m) (clientModel_ID new) then new else m) rows)
  = Some new.
Proof.
  unfold findClient. intros Hfind <-.
  induction rows as [|m rows IH]; cbn in *; [discriminate|].
  destruct (String.eqb (clientModel_ID m) (clientModel_ID new)) eqn:Hm.
  - now rewrite String.eqb_refl.
  - rewrite Hm. exact (IH Hfind).
Qed.

(** X5.  The flag that SetDexAdmin wrote for a stored client is the one
    IsDexAdmin reads afterwards: with the storage layer serving the five
    calls involved, SetDexAdmin on a stored id returns nil and IsDexAdmin
    then answers the flag that was set, with no error. *)
Lemma SetDexAdmin_then_IsDexAdmin (clientID : string) (isAdmin : bool) (w : World)
  (cim : clientModel) :
  findClient clientID (client_identity w) = Some cim ->
  storageServes 5 w = true ->
  fst (clientRepo.SetDexAdmin clientID isAdmin w) = Ok tt /\
  fst (clientRepo.IsDexAdmin clientID (snd (clientRepo.SetDexAdmin clientID isAdmin w)))
  = (isAdmin, None).
Proof.
  intros Hfind Hserves.
  pose proof (findClient_Some_ID _ _ _ Hfind) as Hid.
  assert (Hnew : forall rows, findClient clientID rows = Some cim ->
            findClient clientID
              (map (fun m => if String.eqb (clientModel_ID m)
                                  (clientModel_ID (clientRepo.withDexAdmin isAdmin cim))
                             then clientRepo.withDexAdmin isAdmin cim else m) rows)
            = Some (clientRepo.withDexAdmin isAdmin cim)).
  { intros rows H. now apply (findClient_updated _ _ cim). }
  cbn in Hnew.
  unfold storageServes in Hserves.
  destruct w as [ci cc tx ch en fs]. cbn [faults client_identity] in *.
  unfold clientRepo.SetDexAdmin, clientRepo.IsDexAdmin, begin, exec_Get, exec_Update,
    tx_Commit, tx_Rollback, db_call.
  run.
  destruct fs as [|[e|] [|[e1|] [|[e2|] [|[e3|] [|[e4|] fs]]]]];
    try discriminate Hserves;
    cbn; rewrite Hfind; cbn; rewrite (Hnew _ Hfind); split; reflexivity.
Qed.

End AdminFlag.

(** ** IsDexAdmin and Authenticate *)

Section Lookups.
Context {B : Bcrypt}.

Lemma exec_Get_run (id : string) (w : World) :
  exec_Get id w =
  match nextFault w with
  | None => (Ok (findClient id (client_identity w)), set_faults (tl (faults w)) w)
  | Some e => (Err e, set_faults (tl (faults w)) w)
  end.
Proof.
  unfold exec_Get, bind.
  destruct (nextFault w) as [e|] eqn:E.
  - now rewrite (db_call_faulted _ _ E).
  - now rewrite (db_call_served _ E).
Qed.

(** C10.  For every id with no row in client_identity, IsDexAdmin answers
    false and raises no error of its own: the error it returns is whatever
    the storage layer answered the lookup with, so (false, nil) whenever
    the lookup itself ran.  A missing client reads exactly like a client
    that is not an administrator, and nothing is written. *)
Theorem IsDexAdmin_missing_client (clientID : string) (w : World) :
  hasClient clientID (client_identity w) = false ->
  fst (clientRepo.IsDexAdmin clientID w) = (false, nextFault w) /\
  (nextFault w = None -> fst (clientRepo.IsDexAdmin clientID w) = (false, None)) /\
  tables (snd (clientRepo.IsDexAdmin clientID w)) = tables w.
Proof.
  intros Habs.
  unfold clientRepo.IsDexAdmin. rewrite exec_Get_run.
  rewrite (hasClient_findClient_None _ _ Habs).
  destruct (nextFault w) as [e|]; cbn; repeat split; congruence.
Qed.

(** C4.  Whenever the id is absent, the presented secret fails to decode,
    or the decoded secret is longer than 72 bytes, Authenticate answers
    false, and with no error of its own making: (false, nil) whenever the
    lookup ran, the lookup's own storage error otherwise.  Only a stored
    row together with a well-formed secret of at most 72 bytes reaches the
    bcrypt comparison, which then decides.  An error never comes with
    true, and nothing is written. *)
Theorem Authenticate_exceptional_paths (creds : oidc.ClientCredentials) (w : World) :
  (mustReject creds w ->
     fst (clientRepo.Authenticate creds w) = (false, nextFault w) /\
     (nextFault w = None -> fst (clientRepo.Authenticate creds w) = (false, None))) /\
  (forall cim dec,
     findClient (oidc.ID creds) (client_identity w) = Some cim ->
     Base64.DecodeString (oidc.Secret creds) = Ok dec ->
     List.length dec <= maxSecretLength ->
     nextFault w = None ->
     fst (clientRepo.Authenticate creds w)
     = (bcrypt_compare (clientModel_Secret cim) dec, None)) /\
  (forall ok e, fst (clientRepo.Authenticate creds w) = (ok, Some e) -> ok = false) /\
  tables (snd (clientRepo.Authenticate creds w)) = tables w.
Proof.
  unfold clientRepo.Authenticate, mustReject. rewrite exec_Get_run.
  destruct (nextFault w) as [e|] eqn:Hnf.
  { cbn. repeat split; congruence. }
  destruct (findClient (oidc.ID creds) (client_identity w)) as [cim|] eqn:Hfind.
  2:{ cbn. repeat split; congruence. }
  destruct (Base64.DecodeString (oidc.Secret creds)) as [dec|err] eqn:Hdec.
  2:{ cbn. repeat split; congruence. }
  destruct (Nat.ltb maxSecretLength (List.length dec)) eqn:Hlen; cbn.
  - apply Nat.ltb_lt in Hlen.
    repeat split; try congruence.
    intros cim' dec' _ [= <-] Hle. lia.
  - apply Nat.ltb_ge in Hlen.
    split; [|repeat split; congruence].
    intros [Hnone|[[]|(dec' & [= <-] & Hgt)]]; [discriminate|lia].
Qed.

End Lookups.

(** ** New, then Authenticate *)

Section CreateThenAuthenticate.
Context {B : Bcrypt} {ClientMetadata : Type} {JM : JSON ClientMetadata}.

Lemma DefaultSecretGenerator_length (e : list byte) (secret : list byte) (e' : list byte) :
  DefaultSecretGenerator e = (Ok secret, e') -> List.length secret = maxSecretLength.
Proof.
  unfold DefaultSecretGenerator, RandBytes. intros H.
  apply rand_Read_inv in H as [(bs & [= <-] & Hlen & _)|[[=] _]]. exact Hlen.
Qed.

(** The credentials a successful [New] hands out authenticate, as long as
    the repository's generator stays within the 72 bytes that
    [Authenticate] accepts. *)
Lemma New_then_Authenticate_bounded (r : clientRepo) (cli : client.Client ClientMetadata)
  (w : World) (creds : oidc.ClientCredentials) (w1 : World) :
  bcrypt_sound ->
  (forall e secret e', secretGenerator r e = (Ok secret, e') ->
                       List.length secret <= maxSecretLength) ->
  clientRepo.New r cli w = (Ok creds, w1) ->
  nextFault w1 = None ->
  fst (clientRepo.Authenticate creds w1) = (true, None).
Proof.
  intros Hsound Hbound Hnew Hnf.
  apply New_Ok_inv in Hnew
    as (secret & e1 & salt & bmeta & Hgen & Hsalt & _ & Hfree & Hrows & _ & _ & _ & _ & ->).
  unfold clientRepo.Authenticate. rewrite exec_Get_run, Hnf. cbn [oidc.ID oidc.Secret].
  rewrite Hrows.
  change (oidc.ID (client.Credentials cli))
    with (clientModel_ID (modelOf cli secret salt bmeta)) in Hfree |- *.
  rewrite (findClient_app_fresh _ _ Hfree).
  rewrite Base64Facts.DecodeString_EncodeToString.
  specialize (Hbound _ _ _ Hgen). apply Nat.ltb_ge in Hbound. rewrite Hbound.
  cbn [fst modelOf clientModel_Secret].
  now rewrite Hsound.
Qed.

(** C1.  On a repository built the standard way (72 random bytes per
    secret), whenever New returns credentials for a client, whatever the
    client's own Secret field held and in particular when it was empty,
    Authenticate with exactly those credentials answers (true, nil): the
    generated secret, returned base64-URL-encoded, decodes back to the
    bytes whose bcrypt hash was persisted under the client's id.  This
    rests on bcrypt verifying a password against its own hash, and on the
    storage layer serving the lookup. *)
Theorem New_then_Authenticate (cli : client.Client ClientMetadata)
  (w : World) (creds : oidc.ClientCredentials) (w1 : World) :
  bcrypt_sound ->
  clientRepo.New NewClientRepo cli w = (Ok creds, w1) ->
  nextFault w1 = None ->
  fst (clientRepo.Authenticate creds w1) = (true, None).
Proof.
  intros Hsound Hnew Hnf.
  apply (New_then_Authenticate_bounded NewClientRepo cli w creds w1); trivial.
  intros e secret e' Hgen. cbn in Hgen.
  apply DefaultSecretGenerator_length in Hgen. lia.
Qed.

(** C3, as the code has it.  New never looks at the secret its caller
    supplied: replacing that secret by any other changes nothing in what
    New does, and whenever New succeeds the secret it returns is the
    base64-URL encoding of the bytes drawn from the repository's
    generator, the row it appended carrying the bcrypt hash of those same
    bytes. *)
Theorem New_ignores_supplied_secret (r : clientRepo) (cli : client.Client ClientMetadata)
  (w : World) :
  (forall supplied,
     clientRepo.New r (clientRepo.withSecret supplied cli) w = clientRepo.New r cli w) /\
  (forall creds w',
     clientRepo.New r cli w = (Ok creds, w') ->
     exists secret e1 salt cim,
       secretGenerator r (entropy w) = (Ok secret, e1) /\
       oidc.ID creds = oidc.ID (client.Credentials cli) /\
       oidc.Secret creds = Base64.EncodeToString secret /\
       client_identity w' = client_identity w ++ [cim] /\
       clientModel_ID cim = oidc.ID (client.Credentials cli) /\
       clientModel_Secret cim = bcrypt_hash salt bcryptHashCost secret).
Proof.
  split.
  - intros supplied. reflexivity.
  - intros creds w' Hnew.
    apply New_Ok_inv in Hnew
      as (secret & e1 & salt & bmeta & Hgen & _ & _ & _ & Hrows & _ & _ & _ & _ & ->).
    exists secret, e1, salt, (modelOf cli secret salt bmeta).
    repeat split; assumption.
Qed.

(** C5.  Two calls of New for the same id, the first of which succeeded:
    the second returns an error and leaves both tables as the first call
    left them, so that client_identity holds exactly one row for the id,
    the one carrying the first call's metadata and admin flag, and a table
    whose ids were pairwise distinct before the two calls still has
    pairwise distinct ids after them.  Once the second call gets as far
    as its insert (secret generated, hash salted, metadata serialized,
    storage layer at work) and a registered checker recognises the
    driver's uniqueness error, the error returned is "client ID already
    exists". *)
Theorem New_twice_same_id (r : clientRepo) (cli1 cli2 : client.Client ClientMetadata)
  (w0 w1 w2 : World) (creds1 : oidc.ClientCredentials)
  (res2 : result oidc.ClientCredentials) :
  oidc.ID (client.Credentials cli2) = oidc.ID (client.Credentials cli1) ->
  clientRepo.New r cli1 w0 = (Ok creds1, w1) ->
  clientRepo.New r cli2 w1 = (res2, w2) ->
  is_Err res2 /\
  tables w2 = tables w1 /\
  (exists row bmeta,
     rowsOf (oidc.ID (client.Credentials cli1)) (client_identity w2) = [row] /\
     json_Marshal (client.Metadata cli1) = Ok bmeta /\
     clientModel_Metadata row = string_of_bytes bmeta /\
     clientModel_DexAdmin row = client.Admin cli1) /\
  (NoDup (map clientModel_ID (client_identity w0)) ->
   NoDup (map clientModel_ID (client_identity w2))) /\
  (forall secret e1 bmeta2,
     secretGenerator r (entropy w1) = (Ok secret, e1) ->
     bcrypt_saltLength <= List.length e1 ->
     json_Marshal (client.Metadata cli2) = Ok bmeta2 ->
     nextFault w1 = None ->
     isAlreadyExistsErr (UniqueViolation clientTableName) w1 = true ->
     res2 = Err (errors_New "client ID already exists")).
Proof.
  intros Hid Hnew1 Hnew2.
  apply New_Ok_inv in Hnew1
    as (secret1 & e0 & salt1 & bmeta1 & _ & _ & Hjs1 & Hfree & Hrows & _ & _ & _ & _ & _).
  assert (Hhas : hasClient (oidc.ID (client.Credentials cli2)) (client_identity w1) = true).
  { rewrite Hid, Hrows.
    change (oidc.ID (client.Credentials cli1))
      with (clientModel_ID (modelOf cli1 secret1 salt1 bmeta1)).
    apply hasClient_app_self. }
  assert (Herr : is_Err res2).
  { destruct res2 as [creds2|e]; [|exact I].
    apply New_Ok_inv in Hnew2 as (? & ? & ? & ? & _ & _ & _ & Hfree2 & _).
    congruence. }
  assert (Htab : tables w2 = tables w1).
  { destruct res2 as [creds2|e]; [destruct Herr|].
    now apply New_Err_tables in Hnew2. }
  repeat split; trivial.
  - exists (modelOf cli1 secret1 salt1 bmeta1), bmeta1.
    replace (client_identity w2) with (client_identity w1)
      by (unfold tables in Htab; congruence).
    rewrite Hrows.
    change (oidc.ID (client.Credentials cli1))
      with (clientModel_ID (modelOf cli1 secret1 salt1 bmeta1)) in Hfree |- *.
    rewrite (rowsOf_app_fresh _ _ Hfree). auto.
  - intros Hnd.
    replace (client_identity w2) with (client_identity w1)
      by (unfold tables in Htab; congruence).
    rewrite Hrows. apply unique_ids_app_fresh; assumption.
  - intros secret e1 bmeta2 Hgen Hsalt Hjs2 Hnf Hchk.
    revert Hnew2. unfold clientRepo.New. rewrite bind_run.
    unfold liftRand at 1. rewrite Hgen. rewrite bind_run.
    unfold newClientModel, bcrypt_GenerateFromPassword. run.
    cbn [clientRepo.withSecret client.Credentials client.Metadata client.Admin
         oidc.ID oidc.Secret entropy set_entropy].
    rewrite Base64Facts.DecodeString_EncodeToString.
    unfold rand_Read. apply Nat.leb_le in Hsalt. rewrite Hsalt, Hjs2.
    unfold exec_Insert. run.
    rewrite db_call_served by exact Hnf.
    cbn [client_identity set_faults set_entropy clientModel_ID].
    rewrite Hhas.
    unfold isAlreadyExistsErr in *.
    cbn [alreadyExistsCheckers set_faults set_entropy]. rewrite Hchk.
    now intros [= <- _].
Qed.

End CreateThenAuthenticate.

(** ** Metadata through the store *)

Section MetadataRoundTrip.
Context {B : Bcrypt} {ClientMetadata : Type}
        {ZM : Zero ClientMetadata} {JM : JSON ClientMetadata}.


(** The same through the tables: what [New] stored, [Get] loads. *)
Lemma New_then_Get (r : clientRepo) (cli : client.Client ClientMetadata)
  (w : World) (creds : oidc.ClientCredentials) (w1 : World) :
  json_lossless (client.Metadata cli) ->
  clientRepo.New r cli w = (Ok creds, w1) ->
  nextFault w1 = None ->
  fst (clientRepo.Get (oidc.ID (client.Credentials cli)) w1) = Ok (asStored cli).
Proof.
  intros Hjson Hnew Hnf.
  apply New_Ok_inv in Hnew
    as (secret & e1 & salt & bmeta & _ & _ & Hjs & Hfree & Hrows & _).
  unfold clientRepo.Get. rewrite exec_Get_run, Hnf, Hrows.
  change (oidc.ID (client.Credentials cli))
    with (clientModel_ID (modelOf cli secret salt bmeta)) in Hfree |- *.
  rewrite (findClient_app_fresh _ _ Hfree).
  unfold clientModel_Client, modelOf.
  cbn [fst clientModel_ID clientModel_Metadata clientModel_DexAdmin
       client.Metadata client.Credentials client.Admin].
  unfold bytes_of_string, string_of_bytes.
  rewrite list_byte_of_string_of_list_byte.
  now rewrite (Hjson _ Hjs).
Qed.

End MetadataRoundTrip.

(** ** The connector_config repository *)

Section ConnectorConfigs.
Context {Config : Type} {CC : ConnectorConfig Config} {CR : ConnectorRegistry Config}.

Lemma NewConnectorConfigFromType_unregistered (tag : string) :
  registered tag = false ->
  NewConnectorConfigFromType tag = Err (UnknownTypeError tag).
Proof.
  unfold registered, NewConnectorConfigFromType.
  induction connectorTypes as [|[t c] rest IH]; cbn; [reflexivity|].
  destruct (String.eqb t tag); cbn; [discriminate|exact IH].
Qed.

Lemma connector_Select_run (w : World) :
  connector_Select w =
  match nextFault w with
  | None => (Ok (connector_config w), set_faults (tl (faults w)) w)
  | Some e => (Err e, set_faults (tl (faults w)) w)
  end.
Proof.
  unfold connector_Select. rewrite bind_run.
  destruct (nextFault w) as [e|] eqn:E.
  - now rewrite (db_call_faulted _ _ E).
  - now rewrite (db_call_served _ E).
Qed.

(** One row that does not load fails the whole loop. *)
Lemma configsOf_bad_row (rows : list connectorConfigModel) (bad : connectorConfigModel) :
  In bad rows ->
  is_Err (connectorConfigModel_ConnectorConfig bad) ->
  is_Err (ConnectorConfigRepo.configsOf rows).
Proof.
  intros Hin Hbad. induction rows as [|m rest IH]; [destruct Hin|].
  cbn [ConnectorConfigRepo.configsOf].
  destruct (connectorConfigModel_ConnectorConfig m) as [cfg|e] eqn:Em; [|exact I].
  destruct Hin as [->|Hin].
  - rewrite Em in Hbad. destruct Hbad.
  - specialize (IH Hin).
    destruct (ConnectorConfigRepo.configsOf rest); [destruct IH|exact I].
Qed.

(** Where every row of a registered type loads, the loop stops at the
    first row of an unregistered type, with that row's error. *)
Lemma configsOf_first_unregistered (rows : list connectorConfigModel) :
  (forall row, In row rows -> registered (connectorConfigModel_Type row) = true ->
               exists cfg, connectorConfigModel_ConnectorConfig row = Ok cfg) ->
  (exists bad, In bad rows /\ registered (connectorConfigModel_Type bad) = false) ->
  exists bad, In bad rows /\ registered (connectorConfigModel_Type bad) = false /\
    ConnectorConfigRepo.configsOf rows
    = Err (UnknownTypeError (connectorConfigModel_Type bad)).
Proof.
  intros Hgood (bad & Hin & Hbad).
  induction rows as [|m rest IH]; [destruct Hin|].
  cbn [ConnectorConfigRepo.configsOf].
  destruct (registered (connectorConfigModel_Type m)) eqn:Hm.
  - destruct (Hgood m (or_introl eq_refl) Hm) as [cfg ->].
    destruct Hin as [->|Hin]; [congruence|].
    destruct IH as (bad' & Hin' & Hbad' & ->); trivial.
    + intros row Hrow. apply Hgood. now right.
    + exists bad'. repeat split; trivial. now right.
  - exists m. repeat split; [now left|exact Hm|].
    unfold connectorConfigModel_ConnectorConfig.
    now rewrite (NewConnectorConfigFromType_unregistered _ Hm).
Qed.

(** C8.  Whenever connector_config holds a row whose type tag has no
    registered constructor, All returns an error and no configs, whatever
    the other rows are: the bad row is never skipped.  Where the query
    runs and every row of a registered type deserializes, as the data
    model has it, that error is the UnknownTypeError of an unregistered
    tag in the table; and fetching the bad row by its id fails with the
    UnknownTypeError of its tag.  Neither call writes. *)
Theorem All_unknown_type (w : World) (bad : connectorConfigModel) :
  In bad (connector_config w) ->
  registered (connectorConfigModel_Type bad) = false ->
  is_Err (fst (ConnectorConfigRepo.All w)) /\
  tables (snd (ConnectorConfigRepo.All w)) = tables w /\
  (nextFault w = None ->
   (forall row, In row (connector_config w) ->
                registered (connectorConfigModel_Type row) = true ->
                exists cfg, connectorConfigModel_ConnectorConfig row = Ok cfg) ->
   exists row, In row (connector_config w) /\
     registered (connectorConfigModel_Type row) = false /\
     fst (ConnectorConfigRepo.All w)
     = Err (UnknownTypeError (connectorConfigModel_Type row))) /\
  (nextFault w = None ->
   filter (fun m => String.eqb (connectorConfigModel_ID m) (connectorConfigModel_ID bad))
          (connector_config w) = [bad] ->
   fst (ConnectorConfigRepo.GetConnectorByID (connectorConfigModel_ID bad) w)
   = Err (UnknownTypeError (connectorConfigModel_Type bad))).
Proof.
  intros Hin Hbad.
  assert (Hload : connectorConfigModel_ConnectorConfig bad
                  = Err (UnknownTypeError (connectorConfigModel_Type bad))).
  { unfold connectorConfigModel_ConnectorConfig.
    now rewrite (NewConnectorConfigFromType_unregistered _ Hbad). }
  unfold ConnectorConfigRepo.All. rewrite bind_run, connector_Select_run.
  repeat split.
  - destruct (nextFault w); [exact I|]. unfold lift. cbn [fst].
    apply (configsOf_bad_row _ bad Hin). now rewrite Hload.
  - destruct (nextFault w); reflexivity.
  - intros Hnf Hgood. rewrite Hnf. unfold lift. cbn [fst].
    apply configsOf_first_unregistered; eauto.
  - intros Hnf Huniq.
    unfold ConnectorConfigRepo.GetConnectorByID, connector_SelectOne.
    rewrite bind_run, (db_call_served _ Hnf).
    cbn [connector_config set_faults]. rewrite Huniq. cbn [fst]. exact Hload.
Qed.

Lemma connector_Insert1_inv (m : connectorConfigModel) (w : World)
  (r : result unit) (w' : World) :
  connector_Insert1 m w = (r, w') ->
  client_identity w' = client_identity w /\ open_tx w' = open_tx w /\
  (r = Ok tt -> connector_config w' = connector_config w ++ [m]).
Proof.
  unfold connector_Insert1. rewrite bind_run.
  destruct (db_call w) as [r0 w0] eqn:E.
  apply db_call_inv in E as [Hr ->].
  destruct Hr as [[-> Hnf]|(e & -> & Hnf)].
  - destruct (hasConnector _ _); intros [= <- <-]; cbn; repeat split; discriminate.
  - intros [= <- <-]; cbn; repeat split; discriminate.
Qed.

Lemma connector_Insert_inv (insert : list connectorConfigModel) (w : World)
  (r : result unit) (w' : World) :
  connector_Insert insert w = (r, w') ->
  client_identity w' = client_identity w /\ open_tx w' = open_tx w /\
  (r = Ok tt -> connector_config w' = connector_config w ++ insert).
Proof.
  revert w. induction insert as [|m rest IH]; intros w; cbn [connector_Insert].
  - unfold ret. intros [= <- <-]. rewrite app_nil_r. auto.
  - rewrite bind_run.
    destruct (connector_Insert1 m w) as [[u|e] w1] eqn:E1;
      apply connector_Insert1_inv in E1 as (Hci & Htx & Hrows).
    + intros Hrest. apply IH in Hrest as (Hci' & Htx' & Hrows').
      destruct u.
      repeat split; try congruence.
      intros Hr. rewrite (Hrows' Hr), (Hrows eq_refl), <- app_assoc. reflexivity.
    + intros [= <- <-]. repeat split; trivial. discriminate.
Qed.

(** Rows written from configs of the registry load back as those configs. *)
Lemma configsOf_modelsOf (cfgs : list Config) (ms : list connectorConfigModel) :
  Forall loadsBack cfgs ->
  ConnectorConfigRepo.modelsOf cfgs = Ok ms ->
  ConnectorConfigRepo.configsOf ms = Ok cfgs.
Proof.
  intros Hall. revert ms.
  induction Hall as [|cfg rest Hcfg _ IH]; intros ms; cbn [ConnectorConfigRepo.modelsOf].
  - now intros [= <-].
  - unfold newConnectorConfigModel.
    destruct (json_Marshal cfg) as [b|] eqn:Hb; [|discriminate].
    destruct (ConnectorConfigRepo.modelsOf rest) as [ms'|]; [|discriminate].
    intros [= <-]. cbn [ConnectorConfigRepo.configsOf].
    destruct (Hcfg _ Hb) as (empty & Hnew & Hun).
    unfold connectorConfigModel_ConnectorConfig.
    cbn [connectorConfigModel_Type connectorConfigModel_Config].
    unfold bytes_of_string, string_of_bytes.
    rewrite Hnew, list_byte_of_string_of_list_byte, Hun.
    now rewrite (IH _ eq_refl).
Qed.

(** C7.  SetConfigs replaces the table as a whole or not at all.  If it
    returns an error, whichever step failed (serialization, begin, delete,
    an insert, commit), both tables are exactly what they were before the
    call.  If it succeeds, connector_config holds the serialized form of
    the supplied configs, in order, and nothing of its earlier content;
    and for configs that belong to the registry, All then returns exactly
    the supplied configs. *)
Theorem SetConfigs_replaces (cfgs : list Config) (w : World)
  (res : result unit) (w' : World) :
  ConnectorConfigRepo.SetConfigs cfgs w = (res, w') ->
  (is_Err res -> tables w' = tables w) /\
  (res = Ok tt ->
   client_identity w' = client_identity w /\
   ConnectorConfigRepo.modelsOf cfgs = Ok (connector_config w') /\
   (Forall loadsBack cfgs -> nextFault w' = None ->
    fst (ConnectorConfigRepo.All w') = Ok cfgs)).
Proof.
  unfold ConnectorConfigRepo.SetConfigs. rewrite bind_run. unfold lift at 1.
  destruct (ConnectorConfigRepo.modelsOf cfgs) as [insert|e0] eqn:Hm.
  2:{ intros [= <- <-]. split; [reflexivity|discriminate]. }
  rewrite bind_run.
  destruct (begin w) as [[u|e] w1] eqn:Eb;
    apply begin_inv in Eb as (Htab & _ & _ & _ & [(Hr & _ & Htx)|(e' & Hr & _ & _)]);
    try discriminate.
  2:{ intros [= <- <-]. split; [now intros _|discriminate]. }
  unfold defer. rewrite bind_run.
  unfold connector_DeleteAll at 1. rewrite bind_run.
  destruct (db_call w1) as [rd wd] eqn:Ed.
  apply db_call_inv in Ed as [Hrd ->].
  destruct Hrd as [[-> _]|(ed & -> & _)].
  2:{ intros [= <- <-]. split; [|discriminate]. intros _.
      apply tx_Rollback_open. exact Htx. }
  rewrite bind_run.
  set (wd := set_connector_config [] (set_faults (tl (faults w1)) w1)).
  assert (Htxd : open_tx wd = Some (tables w)) by exact Htx.
  destruct (connector_Insert insert wd) as [[ui|ei] wi] eqn:Ei;
    apply connector_Insert_inv in Ei as (Hci & Htxi & Hrows); rewrite Htxd in Htxi.
  2:{ intros [= <- <-]. split; [|discriminate]. intros _.
      apply tx_Rollback_open. exact Htxi. }
  destruct ui. specialize (Hrows eq_refl). cbn [wd connector_config set_connector_config app] in Hrows.
  destruct (tx_Commit wi) as [[uc|ec] wc] eqn:Ec;
    apply (tx_Commit_inv _ _ _ _ Htxi) in Ec
      as (Hdone & [(Hrc & _ & Hc)|(ec' & Hrc & _ & Hc)]);
    try discriminate;
    intros [= <- <-]; rewrite (tx_Rollback_done _ Hdone).
  - split; [intros []|]. intros _.
    unfold tables in Hc, Htab. injection Hc as Hc1 Hc2. injection Htab as Ht1 _.
    assert (Hcc : connector_config wc = insert) by congruence.
    repeat split.
    + rewrite Hc1, Hci. exact Ht1.
    + now rewrite Hcc.
    + intros Hall Hnf.
      unfold ConnectorConfigRepo.All. rewrite bind_run, connector_Select_run, Hnf.
      unfold lift. cbn [fst]. rewrite Hcc.
      now apply configsOf_modelsOf.
  - split; [|discriminate]. intros _. exact Hc.
Qed.

End ConnectorConfigs.

(** ** The model at work on the stand-ins *)

Section DemoFacts.

Lemma bytes_eqb_refl (a : list byte) : Demo.bytes_eqb a a = true.
Proof.
  induction a as [|x a IH]; cbn; [reflexivity|].
  rewrite IH, andb_true_r. now apply Byte.byte_dec_lb.
Qed.

Lemma Demo_bcrypt_sound : @bcrypt_sound Demo.bcrypt.
Proof.
  intros salt cost password Hsalt.
  cbn [bcrypt_compare bcrypt_hash Demo.bcrypt].
  rewrite skipn_app, Hsalt, Nat.sub_diag, skipn_all2 by lia.
  cbn [skipn app]. apply bytes_eqb_refl.
Qed.

Lemma Demo_json_lossless (md : Demo.Metadata) :
  @json_lossless _ Demo.zeroMetadata Demo.jsonMetadata md.
Proof.
  intros data [= <-]. cbn.
  unfold string_of_bytes, bytes_of_string.
  now rewrite string_of_list_byte_of_string.
Qed.

Lemma Demo_loadsBack_cfgC :
  @loadsBack _ Demo.connectorConfig Demo.registry Demo.cfgC.
Proof.
  intros data [= <-]. exists ("", "X"). split; reflexivity.
Qed.

End DemoFacts.

(** ** Instances on the stand-ins *)

(** An id nobody created, on empty tables. *)
Lemma IsDexAdmin_missing_client_witness :
  hasClient "ghost" (client_identity Demo.world0) = false /\
  fst (clientRepo.IsDexAdmin "ghost" Demo.world0) = (false, None).
Proof.
  split; [reflexivity|].
  apply (IsDexAdmin_missing_client "ghost" Demo.world0); reflexivity.
Defined.

(** A batch of five whose third client has no secret: an error, and the
    tables as before. *)
Lemma NewClientRepoFromClients_all_or_nothing_witness :
  exists res w',
    @NewClientRepoFromClients Demo.bcrypt _ Demo.jsonMetadata Demo.batch5 Demo.world0
    = (res, w') /\
    is_Err res /\ tables w' = tables Demo.world0.
Proof.
  eexists _, _. split; [reflexivity|].
  apply (@NewClientRepoFromClients_all_or_nothing
           Demo.bcrypt _ Demo.jsonMetadata Demo.batch5 Demo.world0 _ _ eq_refl).
  unfold Demo.batch5. do 2 apply Exists_cons_tl. now apply Exists_cons_hd.
Defined.

(** Granting the flag to an id nobody created changes nothing and
    returns nil. *)
Lemma SetDexAdmin_missing_client_witness :
  hasClient "ghost" (client_identity Demo.world0) = false /\
  tables (snd (clientRepo.SetDexAdmin "ghost" true Demo.world0)) = tables Demo.world0 /\
  fst (clientRepo.SetDexAdmin "ghost" true Demo.world0) = Ok tt.
Proof.
  split; [reflexivity|].
  destruct (SetDexAdmin_missing_client "ghost" true Demo.world0 eq_refl) as (Htab & Hok & _).
  split; [exact Htab|]. apply Hok. reflexivity.
Defined.

(** Where the specification expects NotFoundError: on an id that has no
    row, with the storage layer at work, SetDexAdmin returns nil. *)
Lemma SetDexAdmin_missing_client_returns_nil :
  hasClient "ghost" (client_identity Demo.world0) = false /\
  fst (clientRepo.SetDexAdmin "ghost" true Demo.world0) = Ok tt /\
  fst (clientRepo.SetDexAdmin "ghost" true Demo.world0) <> Err client_ErrorNotFound.
Proof.
  repeat split. vm_compute. discriminate.
Qed.

(** A client without a secret is created and then authenticates. *)
Lemma New_then_Authenticate_witness :
  @bcrypt_sound Demo.bcrypt /\
  exists creds w1,
    @clientRepo.New Demo.bcrypt _ Demo.jsonMetadata NewClientRepo Demo.client1 Demo.world0
    = (Ok creds, w1) /\
    nextFault w1 = None /\
    fst (@clientRepo.Authenticate Demo.bcrypt creds w1) = (true, None).
Proof.
  split; [exact Demo_bcrypt_sound|].
  eexists _, _. split; [vm_compute; reflexivity|].
  split; [reflexivity|].
  apply (@New_then_Authenticate Demo.bcrypt _ Demo.jsonMetadata Demo.client1 Demo.world0).
  - exact Demo_bcrypt_sound.
  - vm_compute; reflexivity.
  - reflexivity.
Defined.

(** Where the specification expects the supplied secret to be used: a
    client that comes with the secret "c2VjcmV0" gets credentials with
    another secret, the generated one, and the secret it supplied does not
    authenticate against what was stored. *)
Lemma New_overrides_supplied_secret :
  oidc.Secret (client.Credentials Demo.client2) <> "" /\
  exists creds w1,
    @clientRepo.New Demo.bcrypt _ Demo.jsonMetadata NewClientRepo Demo.client2 Demo.world0
    = (Ok creds, w1) /\
    oidc.Secret creds <> oidc.Secret (client.Credentials Demo.client2) /\
    fst (@clientRepo.Authenticate Demo.bcrypt (client.Credentials Demo.client2) w1)
    = (false, None).
Proof.
  split; [discriminate|].
  eexists _, _. split; [vm_compute; reflexivity|].
  split; [discriminate|vm_compute; reflexivity].
Qed.

(** The same id created twice, the second time with other metadata and
    the admin flag set: the second call is refused and the first row stays. *)
Lemma New_twice_same_id_witness :
  exists creds1 w1 res2 w2,
    @clientRepo.New Demo.bcrypt _ Demo.jsonMetadata NewClientRepo Demo.client1 Demo.world0
    = (Ok creds1, w1) /\
    @clientRepo.New Demo.bcrypt _ Demo.jsonMetadata NewClientRepo Demo.client1' w1
    = (res2, w2) /\
    res2 = Err (errors_New "client ID already exists") /\
    tables w2 = tables w1 /\
    exists row,
      rowsOf "client-1" (client_identity w2) = [row] /\
      clientModel_Metadata row = "https://example.com/callback" /\
      clientModel_DexAdmin row = false.
Proof.
  eexists _, _, _, _.
  split; [vm_compute; reflexivity|].
  split; [vm_compute; reflexivity|].
  match goal with
  | |- _ /\ tables ?w2 = tables ?w1 /\ _ =>
      destruct (@New_twice_same_id Demo.bcrypt _ Demo.jsonMetadata NewClientRepo
                  Demo.client1 Demo.client1' Demo.world0 w1 w2 _ _
                  eq_refl eq_refl eq_refl)
        as (_ & Htab & (row & bmeta & Hrow & Hjs & Hmeta & Hadm) & _ & Herr)
  end.
  split.
  - eapply Herr; [vm_compute; reflexivity|vm_compute; lia|reflexivity|reflexivity|reflexivity].
  - split; [exact Htab|].
    exists row. split; [exact Hrow|]. split; [|exact Hadm].
    rewrite Hmeta. injection Hjs as <-. vm_compute. reflexivity.
Defined.



(** A table with a row of type "ldap", for which nothing is registered,
    behind a row that loads. *)
Lemma All_unknown_type_witness :
  let w := set_connector_config [Demo.rowA; Demo.rowLdap] Demo.world0 in
  In Demo.rowLdap (connector_config w) /\
  @registered _ Demo.registry "ldap" = false /\
  fst (@ConnectorConfigRepo.All _ Demo.connectorConfig Demo.registry w)
  = Err (UnknownTypeError "ldap") /\
  fst (@ConnectorConfigRepo.GetConnectorByID _ Demo.connectorConfig Demo.registry "z" w)
  = Err (UnknownTypeError "ldap").
Proof.
  intros w.
  assert (Hin : In Demo.rowLdap (connector_config w)) by (right; left; reflexivity).
  destruct (@All_unknown_type _ Demo.connectorConfig Demo.registry w Demo.rowLdap
              Hin eq_refl) as (_ & _ & Hall & Hget).
  split; [exact Hin|]. split; [reflexivity|]. split.
  - destruct Hall as (row & Hrow & Hreg & ->).
    + reflexivity.
    + intros row [<-|[<-|[]]] Hr; [eexists; reflexivity|discriminate Hr].
    + destruct Hrow as [<-|[<-|[]]]; [discriminate Hreg|reflexivity].
  - apply Hget; reflexivity.
Defined.

(** Configs a and b are set, then config c alone: All returns c alone. *)
Lemma SetConfigs_replaces_witness :
  let w1 := snd (@ConnectorConfigRepo.SetConfigs _ Demo.connectorConfig
                   [Demo.cfgA; Demo.cfgB] Demo.world0) in
  exists w2,
    @ConnectorConfigRepo.SetConfigs _ Demo.connectorConfig [Demo.cfgC] w1 = (Ok tt, w2) /\
    Forall (@loadsBack _ Demo.connectorConfig Demo.registry) [Demo.cfgC] /\
    fst (@ConnectorConfigRepo.All _ Demo.connectorConfig Demo.registry w2) = Ok [Demo.cfgC].
Proof.
  intros w1. eexists. split; [vm_compute; reflexivity|].
  assert (Hall : Forall (@loadsBack _ Demo.connectorConfig Demo.registry) [Demo.cfgC])
    by (repeat constructor; exact Demo_loadsBack_cfgC).
  split; [exact Hall|].
  eapply (@SetConfigs_replaces _ Demo.connectorConfig Demo.registry [Demo.cfgC] w1 (Ok tt)).
  - vm_compute; reflexivity.
  - reflexivity.
  - exact Hall.
  - reflexivity.
Defined.

(** * Further properties of the code *)

(** ** Get, Metadata and All on client_identity *)

Section ClientReads.
Context {B : Bcrypt} {ClientMetadata : Type}
        {ZM : Zero ClientMetadata} {JM : JSON ClientMetadata}.

(** X1.  Get and Metadata answer ErrorNotFound for an id that has no row,
    and also whenever the lookup itself fails: a storage error never comes
    out of Get.  The only other error Get can return is the one Client()
    raised on the row that was found.  Nothing is written. *)
Theorem Get_reports_not_found (clientID : string) (w : World) :
  (findClient clientID (client_identity w) = None ->
   fst (clientRepo.Get clientID w) = Err client_ErrorNotFound /\
   fst (clientRepo.Metadata clientID w) = Err client_ErrorNotFound) /\
  (forall e, nextFault w = Some e ->
   fst (clientRepo.Get clientID w) = Err client_ErrorNotFound) /\
  (forall e, fst (clientRepo.Get clientID w) = Err e ->
   e = client_ErrorNotFound \/
   exists cim, findClient clientID (client_identity w) = Some cim /\
               clientModel_Client cim = Err e) /\
  tables (snd (clientRepo.Get clientID w)) = tables w.
Proof.
  unfold clientRepo.Metadata. rewrite bind_run.
  unfold clientRepo.Get. rewrite exec_Get_run.
  destruct (nextFault w) as [e0|] eqn:Hnf; cbn [fst snd].
  { repeat split; try congruence. intros e [= <-]. now left. }
  destruct (findClient clientID (client_identity w)) as [cim|] eqn:Hfind; cbn [fst snd].
  - repeat split; try congruence. intros e He. right. exists cim. auto.
  - repeat split; try congruence. intros e [= <-]. now left.
Qed.

Lemma clientModel_Client_Ok_inv (m : clientModel) (c : client.Client ClientMetadata) :
  clientModel_Client m = Ok c ->
  clientID c = clientModel_ID m /\
  oidc.Secret (client.Credentials c) = "" /\
  client.Admin c = clientModel_DexAdmin m.
Proof.
  unfold clientModel_Client.
  destruct (json_Unmarshal _ _); [|discriminate].
  intros [= <-]. auto.
Qed.

(** X2.  A client that Get or All hands out never carries a secret: its
    Secret field is empty, whatever was stored, while its id and admin
    flag are those of its row. *)
Theorem loaded_clients_carry_no_secret (w : World) :
  (forall id c, fst (clientRepo.Get id w) = Ok c ->
     oidc.Secret (client.Credentials c) = "" /\ clientID c = id) /\
  (forall cs, fst (clientRepo.All w) = Ok cs ->
     Forall (fun c => oidc.Secret (client.Credentials c) = "") cs).
Proof.
  split.
  - intros id c. unfold clientRepo.Get. rewrite exec_Get_run.
    destruct (nextFault w); [discriminate|].
    destruct (findClient id (client_identity w)) as [cim|] eqn:Hfind; [|discriminate].
    cbn [fst]. intros Hc.
    apply clientModel_Client_Ok_inv in Hc as (Hid & Hsec & _).
    split; [exact Hsec|]. rewrite Hid. now apply findClient_Some_ID in Hfind.
  - intros cs. unfold clientRepo.All. rewrite bind_run.
    unfold exec_Select. rewrite bind_run.
    destruct (db_call w) as [[u|e] w0]; [|discriminate].
    unfold lift. cbn [fst]. generalize (client_identity w0). intros rows.
    revert cs. induction rows as [|m rows IH]; intros cs; cbn [clientRepo.clientsOf].
    + intros [= <-]. constructor.
    + destruct (clientModel_Client m) as [c|] eqn:Hc; [|discriminate].
      destruct (clientRepo.clientsOf rows) as [cs'|]; [|discriminate].
      intros [= <-]. constructor; [|now apply IH].
      now apply clientModel_Client_Ok_inv in Hc.
Qed.

Lemma clientsOf_Ok_inv (rows : list clientModel) (cs : list (client.Client ClientMetadata)) :
  clientRepo.clientsOf rows = Ok cs ->
  Forall2 (fun m c => clientModel_Client m = Ok c) rows cs.
Proof.
  revert cs. induction rows as [|m rows IH]; intros cs; cbn [clientRepo.clientsOf].
  - intros [= <-]. constructor.
  - destruct (clientModel_Client m) as [c|] eqn:Hc; [|discriminate].
    destruct (clientRepo.clientsOf rows) as [cs'|]; [|discriminate].
    intros [= <-]. constructor; auto.
Qed.

Lemma clientsOf_bad_row (rows : list clientModel) (bad : clientModel) :
  In bad rows -> is_Err (clientModel_Client bad) -> is_Err (clientRepo.clientsOf rows).
Proof.
  intros Hin Hbad. induction rows as [|m rest IH]; [destruct Hin|].
  cbn [clientRepo.clientsOf].
  destruct (clientModel_Client m) as [c|e] eqn:Em; [|exact I].
  destruct Hin as [->|Hin].
  - rewrite Em in Hbad. destruct Hbad.
  - specialize (IH Hin). destruct (clientRepo.clientsOf rest); [destruct IH|exact I].
Qed.

(** X3.  All on client_identity either fails as a whole or returns exactly
    one client per row, in the order of the rows, each the reading of its
    row; a single row whose metadata does not deserialize makes the whole
    call fail, whatever the other rows hold.  Nothing is written. *)
Theorem All_clients_one_per_row_or_none (w : World) :
  (forall cs, fst (clientRepo.All w) = Ok cs ->
     Forall2 (fun m c => clientModel_Client m = Ok c) (client_identity w) cs /\
     map clientID cs = map clientModel_ID (client_identity w) /\
     map client.Admin cs = map clientModel_DexAdmin (client_identity w)) /\
  (forall bad, In bad (client_identity w) -> is_Err (clientModel_Client bad) ->
     is_Err (fst (clientRepo.All w))) /\
  tables (snd (clientRepo.All w)) = tables w.
Proof.
  unfold clientRepo.All. rewrite bind_run. unfold exec_Select. rewrite bind_run.
  destruct (db_call w) as [r w0] eqn:E.
  apply db_call_inv in E as [Hr ->].
  destruct Hr as [[-> _]|(e & -> & _)]; cbn [fst snd lift client_identity set_faults].
  2:{ repeat split; try discriminate. }
  unfold lift. cbn [fst snd]. split; [|split].
  - intros cs Hcs. apply clientsOf_Ok_inv in Hcs. split; [exact Hcs|].
    induction Hcs as [|m c rows cs' Hc _ IH]; [now split|].
    apply clientModel_Client_Ok_inv in Hc as (Hid & _ & Hadm).
    destruct IH as [IH1 IH2]. cbn [map]. now rewrite Hid, Hadm, IH1, IH2.
  - intros bad Hin Hbad. now apply (clientsOf_bad_row _ bad).
  - destruct (clientRepo.clientsOf (client_identity w)); reflexivity.
Qed.


End ClientReads.


(** ** SetDexAdmin on a stored client *)

Section AdminFlagMore.

(** Where SetDexAdmin can leave the world: with the tables as they were,
    or, on success, with the rows of the id replaced by the row it found,
    flag changed. *)
Lemma SetDexAdmin_outcome (id : string) (isAdmin : bool) (w : World) :
  tables (snd (clientRepo.SetDexAdmin id isAdmin w)) = tables w \/
  fst (clientRepo.SetDexAdmin id isAdmin w) = Ok tt /\
  exists cim,
    findClient id (client_identity w) = Some cim /\
    connector_config (snd (clientRepo.SetDexAdmin id isAdmin w)) = connector_config w /\
    client_identity (snd (clientRepo.SetDexAdmin id isAdmin w))
    = map (fun m => if String.eqb (clientModel_ID m) (clientModel_ID cim)
                    then clientRepo.withDexAdmin isAdmin cim else m)
          (client_identity w).
Proof.
  destruct w as [ci cc tx ch en fs].
  unfold clientRepo.SetDexAdmin, begin, exec_Get, exec_Update, tx_Commit, tx_Rollback,
    db_call, tables.
  run. cbn [faults client_identity connector_config].
  destruct fs as [|[e|] [|[e1|] [|[e2|] [|[e3|] fs]]]]; cbn;
    destruct (findClient id ci) as [cim|] eqn:Hfind; cbn; auto;
    right; (split; [reflexivity|]); exists cim; auto.
Qed.

(** X6.  When SetDexAdmin returns an error, whichever of its steps failed
    (begin, lookup, update, commit), both tables are exactly what they
    were before the call. *)
Theorem SetDexAdmin_error_writes_nothing (id : string) (isAdmin : bool) (w : World) :
  is_Err (fst (clientRepo.SetDexAdmin id isAdmin w)) ->
  tables (snd (clientRepo.SetDexAdmin id isAdmin w)) = tables w.
Proof.
  intros Herr.
  destruct (SetDexAdmin_outcome id isAdmin w) as [H|[Hok _]]; [exact H|].
  rewrite Hok in Herr. destruct Herr.
Qed.

Lemma unique_row_of_id (id : string) (rows : list clientModel) (cim m : clientModel) :
  NoDup (map clientModel_ID rows) ->
  findClient id rows = Some cim ->
  In m rows -> clientModel_ID m = id -> m = cim.
Proof.
  unfold findClient.
  induction rows as [|m0 rows IH]; cbn; intros Hnd Hfind Hin Hid; [destruct Hin|].
  inversion Hnd as [|? ? Hnotin Hnd']; subst.
  destruct (String.eqb (clientModel_ID m0) (clientModel_ID m)) eqn:H0.
  - injection Hfind as <-. apply String.eqb_eq in H0.
    destruct Hin as [->|Hin]; [reflexivity|].
    exfalso. apply Hnotin. rewrite H0. now apply in_map.
  - destruct Hin as [->|Hin]; [now rewrite String.eqb_refl in H0|].
    now apply IH.
Qed.

(** X7.  On a table whose ids are pairwise distinct, SetDexAdmin changes
    nothing but the admin flag of the one row that carries the id: every
    row keeps its id, secret hash and metadata, in the same order; the
    rows of other ids stay as they are; connector_config is untouched;
    and the ids are still pairwise distinct. *)
Theorem SetDexAdmin_changes_only_the_flag (id : string) (isAdmin : bool) (w : World) :
  NoDup (map clientModel_ID (client_identity w)) ->
  map sansFlag (client_identity (snd (clientRepo.SetDexAdmin id isAdmin w)))
  = map sansFlag (client_identity w) /\
  (forall m, In m (client_identity w) -> clientModel_ID m <> id ->
             In m (client_identity (snd (clientRepo.SetDexAdmin id isAdmin w)))) /\
  connector_config (snd (clientRepo.SetDexAdmin id isAdmin w)) = connector_config w /\
  NoDup (map clientModel_ID (client_identity (snd (clientRepo.SetDexAdmin id isAdmin w)))).
Proof.
  intros Hnd.
  assert (Hids : forall rows rows' : list clientModel,
            map sansFlag rows' = map sansFlag rows ->
            map clientModel_ID rows' = map clientModel_ID rows).
  { intros rows rows' H.
    apply (f_equal (map (fun t : string * list byte * string => fst (fst t)))) in H.
    now rewrite !map_map in H. }
  destruct (SetDexAdmin_outcome id isAdmin w) as [H|(_ & cim & Hfind & Hcc & Hrows)].
  - unfold tables in H. injection H as -> ->. auto.
  - pose proof (findClient_Some_ID _ _ _ Hfind) as Hcim.
    assert (Hsans : map sansFlag (client_identity (snd (clientRepo.SetDexAdmin id isAdmin w)))
                    = map sansFlag (client_identity w)).
    { rewrite Hrows, map_map. apply map_ext_in. intros m Hin.
      destruct (String.eqb (clientModel_ID m) (clientModel_ID cim)) eqn:Hm; [|reflexivity].
      apply String.eqb_eq in Hm.
      rewrite (unique_row_of_id id _ cim m Hnd Hfind Hin) by congruence.
      reflexivity. }
    repeat split; trivial.
    + intros m Hin Hne. rewrite Hrows. apply in_map_iff. exists m. split; [|exact Hin].
      destruct (String.eqb (clientModel_ID m) (clientModel_ID cim)) eqn:Hm; [|reflexivity].
      apply String.eqb_eq in Hm. congruence.
    + now rewrite (Hids _ _ Hsans).
Qed.

End AdminFlagMore.

Lemma SetDexAdmin_error_writes_nothing_witness :
  let w := set_faults [None; None; Some (StorageError "connection reset")] Demo2.worldOps in
  is_Err (fst (clientRepo.SetDexAdmin "ops" true w)) /\
  tables (snd (clientRepo.SetDexAdmin "ops" true w)) = tables w.
Proof.
  intros w.
  assert (Herr : is_Err (fst (clientRepo.SetDexAdmin "ops" true w))) by exact I.
  split; [exact Herr|].
  exact (SetDexAdmin_error_writes_nothing "ops" true w Herr).
Defined.

Lemma SetDexAdmin_changes_only_the_flag_witness :
  NoDup (map clientModel_ID (client_identity Demo2.worldOps)) /\
  map sansFlag (client_identity (snd (clientRepo.SetDexAdmin "ops" true Demo2.worldOps)))
  = map sansFlag (client_identity Demo2.worldOps).
Proof.
  assert (Hnd : NoDup (map clientModel_ID (client_identity Demo2.worldOps))).
  { repeat constructor. intros []. }
  split; [exact Hnd|].
  apply (SetDexAdmin_changes_only_the_flag "ops" true Demo2.worldOps Hnd).
Defined.

Lemma SetDexAdmin_then_IsDexAdmin_witness :
  findClient "ops" (client_identity Demo2.worldOps) = Some Demo2.adminRow /\
  storageServes 5 Demo2.worldOps = true /\
  fst (clientRepo.IsDexAdmin "ops" (snd (clientRepo.SetDexAdmin "ops" true Demo2.worldOps)))
  = (true, None).
Proof.
  split; [reflexivity|]. split; [reflexivity|].
  apply (SetDexAdmin_then_IsDexAdmin "ops" true Demo2.worldOps Demo2.adminRow);
    reflexivity.
Defined.

(** ** The 72-byte bound *)

Section SecretLength.
Context {B : Bcrypt} {ClientMetadata : Type} {JM : JSON ClientMetadata}.

(** X8.  A repository whose secret generator yields more than 72 bytes
    (one built by NewClientRepoWithSecretGenerator) still creates clients,
    but the credentials New returns never authenticate: Authenticate
    answers false to them, with no error of its own. *)
Theorem overlong_generated_secret_never_authenticates
  (secGen : SecretGenerator) (cli : client.Client ClientMetadata)
  (w : World) (creds : oidc.ClientCredentials) (w1 : World) :
  (forall e secret e', secGen e = (Ok secret, e') -> maxSecretLength < List.length secret) ->
  clientRepo.New (NewClientRepoWithSecretGenerator secGen) cli w = (Ok creds, w1) ->
  fst (clientRepo.Authenticate creds w1) = (false, nextFault w1).
Proof.
  intros Hlong Hnew.
  apply New_Ok_inv in Hnew
    as (secret & e1 & salt & bmeta & Hgen & _ & _ & Hfree & Hrows & _ & _ & _ & _ & ->).
  unfold clientRepo.Authenticate. rewrite exec_Get_run.
  destruct (nextFault w1); [reflexivity|].
  cbn [oidc.ID oidc.Secret]. rewrite Hrows.
  change (oidc.ID (client.Credentials cli))
    with (clientModel_ID (modelOf cli secret salt bmeta)) in Hfree |- *.
  rewrite (findClient_app_fresh _ _ Hfree).
  rewrite Base64Facts.DecodeString_EncodeToString.
  cbn in Hgen. specialize (Hlong _ _ _ Hgen).
  apply Nat.ltb_lt in Hlong. now rewrite Hlong.
Qed.

(** X9.  Appending bytes to a client's secret does not get past
    Authenticate.  For a client created by a standard repository, with a
    bcrypt that looks at the first 72 bytes only, the stored hash does
    match the secret followed by any extra bytes; Authenticate, given
    that longer secret, still answers (false, nil). *)
Theorem Authenticate_rejects_extended_secret (cli : client.Client ClientMetadata)
  (w : World) (creds : oidc.ClientCredentials) (w1 : World)
  (secret extra : list byte) :
  bcrypt_sound ->
  bcrypt_truncates ->
  clientRepo.New NewClientRepo cli w = (Ok creds, w1) ->
  nextFault w1 = None ->
  Base64.DecodeString (oidc.Secret creds) = Ok secret ->
  extra <> [] ->
  (exists cim,
     findClient (oidc.ID creds) (client_identity w1) = Some cim /\
     bcrypt_compare (clientModel_Secret cim) (secret ++ extra) = true) /\
  fst (clientRepo.Authenticate
         {| oidc.ID := oidc.ID creds;
            oidc.Secret := Base64.EncodeToString (secret ++ extra) |} w1)
  = (false, None).
Proof.
  intros Hsound Htrunc Hnew Hnf Hdec Hextra.
  apply New_Ok_inv in Hnew
    as (secret' & e1 & salt & bmeta & Hgen & Hsalt & _ & Hfree & Hrows & _ & _ & _ & _ & ->).
  cbn [oidc.ID oidc.Secret] in *.
  rewrite Base64Facts.DecodeString_EncodeToString in Hdec. injection Hdec as ->.
  cbn in Hgen. apply DefaultSecretGenerator_length in Hgen.
  change (oidc.ID (client.Credentials cli))
    with (clientModel_ID (modelOf cli secret salt bmeta)) in Hfree |- *.
  pose proof (findClient_app_fresh _ _ Hfree) as Hfind. rewrite <- Hrows in Hfind.
  split.
  - eexists. split; [exact Hfind|].
    cbn [modelOf clientModel_Secret].
    rewrite Htrunc, firstn_app, <- Hgen, Nat.sub_diag, firstn_all. cbn [firstn].
    rewrite app_nil_r. now apply Hsound.
  - unfold clientRepo.Authenticate. rewrite exec_Get_run, Hnf.
    cbn [oidc.ID oidc.Secret]. rewrite Hfind.
    rewrite Base64Facts.DecodeString_EncodeToString.
    assert (Hlen : maxSecretLength < List.length (secret ++ extra)).
    { rewrite length_app, Hgen. destruct extra as [|x extra]; [contradiction|].
      cbn [List.length]. lia. }
    apply Nat.ltb_lt in Hlen. now rewrite Hlen.
Qed.

End SecretLength.

Lemma Demo_bcrypt_truncates : @bcrypt_truncates Demo.bcrypt.
Proof.
  intros hash password. cbn [bcrypt_compare Demo.bcrypt].
  unfold maxSecretLength. now rewrite firstn_firstn.
Qed.

Lemma overlong_generated_secret_never_authenticates_witness :
  (forall e secret e', Demo2.longGenerator e = (Ok secret, e') ->
                       maxSecretLength < List.length secret) /\
  exists creds w1,
    @clientRepo.New Demo.bcrypt _ Demo.jsonMetadata
      (NewClientRepoWithSecretGenerator Demo2.longGenerator) Demo.client1 Demo.world0
    = (Ok creds, w1) /\
    fst (@clientRepo.Authenticate Demo.bcrypt creds w1) = (false, None).
Proof.
  assert (Hlong : forall e secret e', Demo2.longGenerator e = (Ok secret, e') ->
                                      maxSecretLength < List.length secret).
  { intros e secret e' H. unfold Demo2.longGenerator, RandBytes in H.
    apply rand_Read_inv in H as [(bs & [= <-] & Hlen & _)|[[=] _]].
    unfold maxSecretLength. lia. }
  split; [exact Hlong|].
  eexists _, _. split; [vm_compute; reflexivity|].
  erewrite (@overlong_generated_secret_never_authenticates Demo.bcrypt _ Demo.jsonMetadata
              Demo2.longGenerator Demo.client1 Demo.world0 _ _ Hlong).
  - reflexivity.
  - vm_compute; reflexivity.
Defined.

Lemma Authenticate_rejects_extended_secret_witness :
  @bcrypt_sound Demo.bcrypt /\ @bcrypt_truncates Demo.bcrypt /\
  exists creds w1,
    @clientRepo.New Demo.bcrypt _ Demo.jsonMetadata NewClientRepo Demo.client1 Demo.world0
    = (Ok creds, w1) /\
    fst (@clientRepo.Authenticate Demo.bcrypt
           {| oidc.ID := oidc.ID creds;
              oidc.Secret := Base64.EncodeToString (repeat x2a 72 ++ [x00]) |} w1)
    = (false, None).
Proof.
  split; [exact Demo_bcrypt_sound|]. split; [exact Demo_bcrypt_truncates|].
  eexists _, _. split; [vm_compute; reflexivity|].
  eapply (@Authenticate_rejects_extended_secret Demo.bcrypt _ Demo.jsonMetadata
            Demo.client1 Demo.world0 _ _ (repeat x2a 72) [x00]
            Demo_bcrypt_sound Demo_bcrypt_truncates).
  - vm_compute; reflexivity.
  - reflexivity.
  - vm_compute; reflexivity.
  - discriminate.
Defined.

(** ** NewClientRepoFromClients, when it succeeds *)

Section BatchMore.
Context {B : Bcrypt} {ClientMetadata : Type} {JM : JSON ClientMetadata}.

Lemma findClient_app_hit (id : string) (rows more : list clientModel) (m : clientModel) :
  findClient id rows = Some m -> findClient id (rows ++ more) = Some m.
Proof.
  unfold findClient. induction rows as [|m0 rows IH]; cbn; [discriminate|].
  destruct (String.eqb (clientModel_ID m0) id); auto.
Qed.

Lemma hasClient_app (id : string) (rows more : list clientModel) :
  hasClient id (rows ++ more) = hasClient id rows || hasClient id more.
Proof. unfold hasClient. apply existsb_app. Qed.

(** Each client of a loop that ran to its end has its row, built from its
    own secret, and a lookup by its id finds that row. *)
Lemma insertClients_Ok_finds (clients : list (client.Client ClientMetadata))
  (w : World) (u : unit) (w' : World) :
  insertClients clients w = (Ok u, w') ->
  forall c, In c clients ->
  exists dec salt bmeta,
    Base64.DecodeString (oidc.Secret (client.Credentials c)) = Ok dec /\
    List.length salt = bcrypt_saltLength /\
    findClient (clientID c) (client_identity w') = Some (modelOf c dec salt bmeta).
Proof.
  revert w. induction clients as [|c0 rest IH]; intros w Hrun c Hin; [destruct Hin|].
  cbn [insertClients] in Hrun.
  destruct (String.eqb _ ""); [discriminate|].
  rewrite bind_run in Hrun.
  pose proof (newClientModel_frame c0 w) as (Hd & _ & _).
  destruct (newClientModel c0 w) as [[cm|e] w1] eqn:Em; [|discriminate].
  cbn [snd] in Hd. apply durable_inv in Hd as (Hci & _ & _).
  apply newClientModel_Ok_inv in Em as (dec & salt & bmeta & Hdec & Hsalt & _ & ->).
  rewrite bind_run in Hrun.
  destruct (exec_Insert _ w1) as [[u1|e] w2] eqn:Ei; [|discriminate].
  apply exec_Insert_inv in Ei
    as (_ & _ & _ & _ & _ & [(_ & _ & Hfree & Hrows)|(_ & e' & [=] & _)]).
  destruct Hin as [<-|Hin]; [|now apply (IH w2)].
  exists dec, salt, bmeta. repeat split; trivial.
  destruct u. apply insertClients_Ok_inv in Hrun as (rows & -> & _).
  apply findClient_app_hit. rewrite Hrows.
  exact (findClient_app_fresh (modelOf c0 dec salt bmeta) _ Hfree).
Qed.

(** The ids of a loop that ran to its end were free in the table and are
    pairwise distinct. *)
Lemma insertClients_Ok_fresh (clients : list (client.Client ClientMetadata))
  (w : World) (u : unit) (w' : World) :
  insertClients clients w = (Ok u, w') ->
  NoDup (map clientID clients) /\
  forall c, In c clients -> hasClient (clientID c) (client_identity w) = false.
Proof.
  revert w. induction clients as [|c0 rest IH]; intros w Hrun.
  { split; [constructor|intros c []]. }
  cbn [insertClients] in Hrun.
  destruct (String.eqb _ ""); [discriminate|].
  rewrite bind_run in Hrun.
  pose proof (newClientModel_frame c0 w) as (Hd & _ & _).
  destruct (newClientModel c0 w) as [[cm|e] w1] eqn:Em; [|discriminate].
  cbn [snd] in Hd. apply durable_inv in Hd as (Hci & _ & _).
  apply newClientModel_Ok_inv in Em as (dec & salt & bmeta & _ & _ & _ & ->).
  rewrite bind_run in Hrun.
  destruct (exec_Insert _ w1) as [[u1|e] w2] eqn:Ei; [|discriminate].
  apply exec_Insert_inv in Ei
    as (_ & _ & _ & _ & _ & [(_ & _ & Hfree & Hrows)|(_ & e' & [=] & _)]).
  apply IH in Hrun as (Hnd & Hrest).
  cbn [modelOf clientModel_ID] in Hfree. rewrite Hci in Hfree, Hrows.
  assert (Hsplit : forall c, In c rest ->
            hasClient (clientID c) (client_identity w) = false /\
            clientID c <> clientID c0).
  { intros c Hin. specialize (Hrest c Hin).
    rewrite Hrows, hasClient_app in Hrest. apply orb_false_elim in Hrest as [H1 H2].
    split; [exact H1|]. intros Heq.
    unfold hasClient in H2. cbn in H2. unfold clientID in *.
    rewrite Heq, String.eqb_refl in H2. discriminate. }
  split.
  - cbn [map]. constructor; [|exact Hnd].
    intros Hin. apply in_map_iff in Hin as (c & Heq & Hin).
    now destruct (Hsplit c Hin) as [_ Hne].
  - intros c [<-|Hin]; [exact Hfree|]. now apply Hsplit.
Qed.

(** A batch that succeeded: its loop ran to its end on the tables the
    call found, and what the loop left is what the call leaves. *)
Lemma NewClientRepoFromClients_Ok_inv (clients : list (client.Client ClientMetadata))
  (w : World) (repo : clientRepo) (w' : World) :
  NewClientRepoFromClients clients w = (Ok repo, w') ->
  exists w1 wa,
    client_identity w1 = client_identity w /\
    insertClients clients w1 = (Ok tt, wa) /\
    client_identity w' = client_identity wa.
Proof.
  unfold NewClientRepoFromClients. rewrite bind_run.
  destruct (begin w) as [[u|e] w1] eqn:Eb; [|discriminate].
  apply begin_inv in Eb as (Htab & _ & _ & _ & [(_ & _ & Htx)|(e' & [=] & _)]).
  unfold defer. rewrite bind_run.
  pose proof (insertClients_frame clients w1) as [_ Htx1].
  destruct (insertClients clients w1) as [[u1|e1] wa] eqn:Eins; [|discriminate].
  cbn [snd] in Htx1. rewrite Htx in Htx1. rewrite bind_run.
  destruct (tx_Commit wa) as [[u2|e2] wb] eqn:Ec; [|discriminate].
  apply (tx_Commit_inv _ _ _ _ Htx1) in Ec
    as (Hdone & [(_ & _ & Hc)|(e' & [=] & _)]).
  unfold ret. intros [= _ <-]. rewrite (tx_Rollback_done _ Hdone).
  exists w1, wa. destruct u1.
  unfold tables in Htab, Hc. repeat split; congruence.
Qed.


(** X11.  A batch only succeeds on ids that are new: after a successful
    NewClientRepoFromClients the ids of the list are pairwise distinct and
    none of them had a row before, so a list that repeats an id, or names
    a stored one, is refused; and a table whose ids were pairwise distinct
    still has pairwise distinct ids. *)
Theorem batch_success_means_new_ids (clients : list (client.Client ClientMetadata))
  (w : World) (repo : clientRepo) (w' : World) :
  NewClientRepoFromClients clients w = (Ok repo, w') ->
  NoDup (map clientID clients) /\
  (forall c, In c clients -> hasClient (clientID c) (client_identity w) = false) /\
  (NoDup (map clientModel_ID (client_identity w)) ->
   NoDup (map clientModel_ID (client_identity w'))).
Proof.
  intros Hbatch.
  apply NewClientRepoFromClients_Ok_inv in Hbatch as (w1 & wa & Hci & Hloop & Hrows).
  destruct (insertClients_Ok_fresh _ _ _ _ Hloop) as [Hnd Hfresh].
  rewrite Hci in Hfresh.
  apply insertClients_Ok_inv in Hloop as (rows & Hwa & Hids).
  repeat split; trivial.
  intros Hold. rewrite Hrows, Hwa, Hci, map_app. apply NoDup_app; trivial.
  - unfold clientID in Hnd. now rewrite Hids.
  - intros id Hin1 Hin2. rewrite Hids in Hin2.
    apply in_map_iff in Hin2 as (c & <- & Hc).
    specialize (Hfresh c Hc). unfold hasClient, clientID in Hfresh.
    apply in_map_iff in Hin1 as (m & Hm & Hin1).
    assert (Hex : existsb (fun m0 => String.eqb (clientModel_ID m0)
                                        (oidc.ID (client.Credentials c)))
                          (client_identity w) = true).
    { apply existsb_exists. exists m. split; [exact Hin1|]. now apply String.eqb_eq. }
    congruence.
Qed.

End BatchMore.


Lemma batch_success_means_new_ids_witness :
  exists repo w',
    @NewClientRepoFromClients Demo.bcrypt _ Demo.jsonMetadata [Demo2.short; Demo2.long]
      Demo.world0 = (Ok repo, w') /\
    NoDup (map clientID [Demo2.short; Demo2.long]) /\
    NoDup (map clientModel_ID (client_identity w')).
Proof.
  eexists _, _. split; [vm_compute; reflexivity|].
  edestruct (@batch_success_means_new_ids Demo.bcrypt _ Demo.jsonMetadata
               [Demo2.short; Demo2.long] Demo.world0) as (Hnd & _ & Hinv).
  - vm_compute; reflexivity.
  - split; [exact Hnd|]. apply Hinv. constructor.
Defined.

(** ** New, its errors and the checker registry *)

Section CreateMore.
Context {B : Bcrypt} {ClientMetadata : Type} {JM : JSON ClientMetadata}.

Lemma anyChecker_app (cs cs' : list (error -> bool)) (err : error) :
  anyChecker (cs ++ cs') err = anyChecker cs err || anyChecker cs' err.
Proof.
  induction cs as [|c cs IH]; cbn; [reflexivity|].
  destruct (c err); [reflexivity|exact IH].
Qed.

(** X12.  The registry of already-exists checkers only grows: after
    registerAlreadyExistsChecker f, an error is recognised exactly when it
    was recognised before or f recognises it; with nothing registered no
    error is recognised; and registering touches no table. *)
Theorem registerAlreadyExistsChecker_extends (f : error -> bool) (err : error) (w : World) :
  isAlreadyExistsErr err (registerAlreadyExistsChecker f w)
  = isAlreadyExistsErr err w || f err /\
  (alreadyExistsCheckers w = [] -> isAlreadyExistsErr err w = false) /\
  tables (registerAlreadyExistsChecker f w) = tables w.
Proof.
  unfold isAlreadyExistsErr, registerAlreadyExistsChecker.
  cbn [alreadyExistsCheckers set_alreadyExistsCheckers].
  repeat split.
  - rewrite anyChecker_app. cbn. now destruct (f err).
  - now intros ->.
Qed.

(** What [New] returns once it has got as far as its insert on an id that
    is taken. *)
Lemma New_on_taken_id (r : clientRepo) (cli : client.Client ClientMetadata) (w : World)
  (secret e1 bmeta : list byte) :
  hasClient (clientID cli) (client_identity w) = true ->
  secretGenerator r (entropy w) = (Ok secret, e1) ->
  bcrypt_saltLength <= List.length e1 ->
  json_Marshal (client.Metadata cli) = Ok bmeta ->
  nextFault w = None ->
  fst (clientRepo.New r cli w)
  = Err (if isAlreadyExistsErr (UniqueViolation clientTableName) w
         then errors_New "client ID already exists"
         else UniqueViolation clientTableName).
Proof.
  intros Hhas Hgen Hsalt Hjs Hnf.
  unfold clientRepo.New. rewrite bind_run.
  unfold liftRand at 1. rewrite Hgen. rewrite bind_run.
  unfold newClientModel, bcrypt_GenerateFromPassword. run.
  cbn [clientRepo.withSecret client.Credentials client.Metadata client.Admin
       oidc.ID oidc.Secret entropy set_entropy].
  rewrite Base64Facts.DecodeString_EncodeToString.
  unfold rand_Read. apply Nat.leb_le in Hsalt. rewrite Hsalt, Hjs.
  unfold exec_Insert. run.
  rewrite db_call_served by exact Hnf.
  cbn [client_identity set_faults set_entropy clientModel_ID].
  unfold clientID in Hhas. rewrite Hhas.
  unfold isAlreadyExistsErr.
  cbn [alreadyExistsCheckers set_faults set_entropy].
  now destruct (anyChecker (alreadyExistsCheckers w) (UniqueViolation clientTableName)).
Qed.

(** X13.  New translates the driver's uniqueness error only if a
    registered checker recognises it.  On an id that is taken, once the
    insert is reached, New returns "client ID already exists" when the
    registry recognises the driver's error, and the driver's error itself,
    untranslated, when it does not, as when no checker was registered. *)
Theorem New_duplicate_error_depends_on_registry (r : clientRepo)
  (cli : client.Client ClientMetadata) (w : World) (secret e1 bmeta : list byte) :
  hasClient (clientID cli) (client_identity w) = true ->
  secretGenerator r (entropy w) = (Ok secret, e1) ->
  bcrypt_saltLength <= List.length e1 ->
  json_Marshal (client.Metadata cli) = Ok bmeta ->
  nextFault w = None ->
  (isAlreadyExistsErr (UniqueViolation clientTableName) w = true ->
   fst (clientRepo.New r cli w) = Err (errors_New "client ID already exists")) /\
  (isAlreadyExistsErr (UniqueViolation clientTableName) w = false ->
   fst (clientRepo.New r cli w) = Err (UniqueViolation clientTableName)) /\
  (alreadyExistsCheckers w = [] ->
   fst (clientRepo.New r cli w) = Err (UniqueViolation clientTableName)).
Proof.
  intros Hhas Hgen Hsalt Hjs Hnf.
  rewrite (New_on_taken_id r cli w secret e1 bmeta Hhas Hgen Hsalt Hjs Hnf).
  repeat split.
  - now intros ->.
  - now intros ->.
  - unfold isAlreadyExistsErr. now intros ->.
Qed.

(** X14.  New writes one row or nothing.  Whatever it returns, it leaves
    connector_config and every row that was there untouched; when it
    returns an error the table is as it was; when it returns credentials,
    exactly one row was appended, under an id that was free, carrying the
    client's id and admin flag. *)
Theorem New_writes_one_row_or_nothing (r : clientRepo) (cli : client.Client ClientMetadata)
  (w : World) (res : result oidc.ClientCredentials) (w' : World) :
  clientRepo.New r cli w = (res, w') ->
  connector_config w' = connector_config w /\
  (is_Err res -> client_identity w' = client_identity w) /\
  (forall creds, res = Ok creds ->
   hasClient (clientID cli) (client_identity w) = false /\
   exists cim,
     client_identity w' = client_identity w ++ [cim] /\
     clientModel_ID cim = clientID cli /\
     clientModel_DexAdmin cim = client.Admin cli /\
     oidc.ID creds = clientID cli).
Proof.
  intros Hnew. destruct res as [creds|e].
  - apply New_Ok_inv in Hnew
      as (secret & e1 & salt & bmeta & _ & _ & _ & Hfree & Hrows & Hcc & _ & _ & _ & Hcreds).
    split; [exact Hcc|]. split; [intros []|].
    intros creds' [= <-]. split; [exact Hfree|].
    exists (modelOf cli secret salt bmeta). rewrite Hcreds. repeat split. exact Hrows.
  - apply New_Err_tables in Hnew. unfold tables in Hnew. injection Hnew as Hci Hcc.
    split; [exact Hcc|]. split; [intros _; exact Hci|discriminate].
Qed.

End CreateMore.

Lemma New_duplicate_error_depends_on_registry_witness :
  let w := set_client_identity [Demo2.adminRow] Demo2.worldNoChecker in
  hasClient "ops" (client_identity w) = true /\
  alreadyExistsCheckers w = [] /\
  fst (@clientRepo.New Demo.bcrypt _ Demo.jsonMetadata NewClientRepo
         (Demo.seeded "ops" "") w)
  = Err (UniqueViolation clientTableName).
Proof.
  intros w. split; [reflexivity|]. split; [reflexivity|].
  eapply (@New_duplicate_error_depends_on_registry Demo.bcrypt _ Demo.jsonMetadata
            NewClientRepo (Demo.seeded "ops" "") w).
  - reflexivity.
  - vm_compute; reflexivity.
  - vm_compute; lia.
  - reflexivity.
  - reflexivity.
  - reflexivity.
Defined.

Lemma New_writes_one_row_or_nothing_witness :
  exists res w',
    @clientRepo.New Demo.bcrypt _ Demo.jsonMetadata NewClientRepo Demo.client1 Demo2.worldOps
    = (res, w') /\
    connector_config w' = connector_config Demo2.worldOps /\
    exists cim, client_identity w' = client_identity Demo2.worldOps ++ [cim].
Proof.
  eexists _, _. split; [vm_compute; reflexivity|].
  edestruct (@New_writes_one_row_or_nothing Demo.bcrypt _ Demo.jsonMetadata
               NewClientRepo Demo.client1 Demo2.worldOps) as (Hcc & _ & Hok).
  - vm_compute; reflexivity.
  - split; [exact Hcc|].
    destruct (Hok _ eq_refl) as (_ & cim & Hrows & _). exists cim. exact Hrows.
Defined.

(** ** More on the connector_config repository *)

Section ConnectorMore.
Context {Config : Type} {CC : ConnectorConfig Config} {CR : ConnectorRegistry Config}.

(** X15.  GetConnectorByID answers connector.ErrorNotFound for an id that
    has no row, gives back any other storage error as it came (where Get
    on client_identity would say "not found"), and writes nothing. *)
Theorem GetConnectorByID_missing (id : string) (w : World) :
  (nextFault w = None -> findConnector id (connector_config w) = [] ->
   fst (ConnectorConfigRepo.GetConnectorByID id w) = Err connector_ErrorNotFound) /\
  (forall e, nextFault w = Some e -> e <> sql_ErrNoRows ->
   fst (ConnectorConfigRepo.GetConnectorByID id w) = Err e) /\
  tables (snd (ConnectorConfigRepo.GetConnectorByID id w)) = tables w.
Proof.
  unfold ConnectorConfigRepo.GetConnectorByID, connector_SelectOne, findConnector.
  rewrite bind_run.
  destruct (db_call w) as [r w0] eqn:E.
  apply db_call_inv in E as [Hr ->].
  destruct Hr as [[-> Hnf]|(e & -> & Hnf)]; cbn [connector_config set_faults].
  - destruct (filter _ (connector_config w)) as [|c [|c' l]]; cbn [fst snd];
      repeat split; try congruence.
  - repeat split.
    + congruence.
    + intros e' He' Hne. assert (e' = e) by congruence. subst e'.
      destruct e; try reflexivity. now destruct Hne.
    + destruct e; reflexivity.
Qed.

Lemma connector_Insert1_Ok_fresh (m : connectorConfigModel) (w : World)
  (u : unit) (w' : World) :
  connector_Insert1 m w = (Ok u, w') ->
  hasConnector (connectorConfigModel_ID m) (connector_config w) = false.
Proof.
  unfold connector_Insert1. rewrite bind_run.
  destruct (db_call w) as [r0 w0] eqn:E.
  apply db_call_inv in E as [Hr ->].
  destruct Hr as [[-> Hnf]|(e & -> & Hnf)]; [|discriminate].
  cbn [connector_config set_faults].
  now destruct (hasConnector _ _).
Qed.

Lemma hasConnector_not_in (id : string) (rows : list connectorConfigModel) :
  hasConnector id rows = false -> ~ In id (map connectorConfigModel_ID rows).
Proof.
  unfold hasConnector. intros Hno Hin.
  apply in_map_iff in Hin as (m & <- & Hin).
  assert (H : existsb (fun m0 => String.eqb (connectorConfigModel_ID m0)
                                   (connectorConfigModel_ID m)) rows = true).
  { apply existsb_exists. exists m. split; [exact Hin|apply String.eqb_refl]. }
  congruence.
Qed.

(** Inserts that all succeeded kept the ids of the table pairwise distinct. *)
Lemma connector_Insert_Ok_unique (insert : list connectorConfigModel) (w : World)
  (u : unit) (w' : World) :
  connector_Insert insert w = (Ok u, w') ->
  NoDup (map connectorConfigModel_ID (connector_config w)) ->
  NoDup (map connectorConfigModel_ID (connector_config w ++ insert)).
Proof.
  revert w. induction insert as [|m rest IH]; intros w; cbn [connector_Insert].
  - intros _ H. now rewrite app_nil_r.
  - rewrite bind_run.
    destruct (connector_Insert1 m w) as [[u1|e] w1] eqn:E1; [|discriminate].
    pose proof (connector_Insert1_Ok_fresh _ _ _ _ E1) as Hfree.
    apply connector_Insert1_inv in E1 as (_ & _ & Hrows).
    destruct u1. specialize (Hrows eq_refl).
    intros Hrest Hnd. apply IH in Hrest.
    + rewrite Hrows, <- app_assoc in Hrest. exact Hrest.
    + rewrite Hrows, map_app. apply NoDup_app; trivial.
      * cbn. constructor; [intros []|constructor].
      * intros id Hin [<-|[]]. now apply (hasConnector_not_in _ _ Hfree).
Qed.

(** A Set that succeeded: the table is the serialized configs, inserted
    one by one into the emptied table. *)
Lemma SetConfigs_Ok_inv (cfgs : list Config) (w w' : World) :
  ConnectorConfigRepo.SetConfigs cfgs w = (Ok tt, w') ->
  ConnectorConfigRepo.modelsOf cfgs = Ok (connector_config w') /\
  NoDup (map connectorConfigModel_ID (connector_config w')).
Proof.
  unfold ConnectorConfigRepo.SetConfigs. rewrite bind_run. unfold lift at 1.
  destruct (ConnectorConfigRepo.modelsOf cfgs) as [insert|e0] eqn:Hm; [|discriminate].
  rewrite bind_run.
  destruct (begin w) as [[u|e] w1] eqn:Eb; [|discriminate].
  apply begin_inv in Eb as (_ & _ & _ & _ & [(_ & _ & Htx)|(e' & [=] & _)]).
  unfold defer. rewrite bind_run.
  unfold connector_DeleteAll at 1. rewrite bind_run.
  destruct (db_call w1) as [rd wd] eqn:Ed.
  apply db_call_inv in Ed as [Hrd ->].
  destruct Hrd as [[-> _]|(ed & -> & _)]; [|discriminate].
  rewrite bind_run.
  set (wd := set_connector_config [] (set_faults (tl (faults w1)) w1)).
  assert (Htxd : open_tx wd = Some (tables w)) by exact Htx.
  destruct (connector_Insert insert wd) as [[ui|ei] wi] eqn:Ei; [|discriminate].
  pose proof (connector_Insert_Ok_unique _ _ _ _ Ei) as Huniq.
  apply connector_Insert_inv in Ei as (_ & Htxi & Hrows). rewrite Htxd in Htxi.
  destruct ui. specialize (Hrows eq_refl).
  cbn [wd connector_config set_connector_config app] in Hrows, Huniq.
  destruct (tx_Commit wi) as [[uc|ec] wc] eqn:Ec; [|discriminate].
  apply (tx_Commit_inv _ _ _ _ Htxi) in Ec as (Hdone & [(_ & _ & Hc)|(ec' & [=] & _)]).
  destruct uc. intros [= <-]. rewrite (tx_Rollback_done _ Hdone).
  unfold tables in Hc. injection Hc as _ Hcc.
  rewrite Hcc, Hrows. split; [reflexivity|]. apply Huniq. constructor.
Qed.

Lemma modelsOf_ids (cfgs : list Config) (ms : list connectorConfigModel) :
  ConnectorConfigRepo.modelsOf cfgs = Ok ms ->
  map connectorConfigModel_ID ms = map ConnectorID cfgs.
Proof.
  revert ms. induction cfgs as [|cfg rest IH]; intros ms; cbn [ConnectorConfigRepo.modelsOf].
  - now intros [= <-].
  - unfold newConnectorConfigModel.
    destruct (json_Marshal cfg) as [b|]; [|discriminate].
    destruct (ConnectorConfigRepo.modelsOf rest) as [ms'|]; [|discriminate].
    intros [= <-]. cbn. now rewrite (IH _ eq_refl).
Qed.

Lemma modelsOf_In (cfgs : list Config) (ms : list connectorConfigModel) (cfg : Config) :
  ConnectorConfigRepo.modelsOf cfgs = Ok ms -> In cfg cfgs ->
  exists m, newConnectorConfigModel cfg = Ok m /\ In m ms.
Proof.
  revert ms. induction cfgs as [|c rest IH]; intros ms Hms Hin; [destruct Hin|].
  cbn [ConnectorConfigRepo.modelsOf] in Hms.
  destruct (newConnectorConfigModel c) as [m|] eqn:Hm; [|discriminate].
  destruct (ConnectorConfigRepo.modelsOf rest) as [ms'|]; [|discriminate].
  injection Hms as <-.
  destruct Hin as [<-|Hin].
  - exists m. split; [exact Hm|now left].
  - destruct (IH _ eq_refl Hin) as (m' & Hm' & Hin'). exists m'. split; [exact Hm'|now right].
Qed.

Lemma unique_row_filter (rows : list connectorConfigModel) (m : connectorConfigModel) :
  NoDup (map connectorConfigModel_ID rows) -> In m rows ->
  findConnector (connectorConfigModel_ID m) rows = [m].
Proof.
  unfold findConnector.
  induction rows as [|m0 rows IH]; cbn; intros Hnd Hin; [destruct Hin|].
  inversion Hnd as [|? ? Hnotin Hnd']; subst.
  destruct Hin as [->|Hin].
  - rewrite String.eqb_refl. f_equal.
    destruct (filter _ rows) as [|x l] eqn:Hf; [reflexivity|].
    exfalso. apply Hnotin.
    assert (Hx : In x (filter (fun m0 => String.eqb (connectorConfigModel_ID m0)
                                           (connectorConfigModel_ID m)) rows))
      by (rewrite Hf; now left).
    apply filter_In in Hx as [Hx Heq]. apply String.eqb_eq in Heq.
    rewrite <- Heq. now apply in_map.
  - destruct (String.eqb (connectorConfigModel_ID m0) (connectorConfigModel_ID m)) eqn:H0.
    + exfalso. apply Hnotin. apply String.eqb_eq in H0. rewrite H0. now apply in_map.
    + now apply IH.
Qed.

(** X16.  What Set stored, GetConnectorByID finds: after a successful
    Set, every supplied config that belongs to the registry is returned,
    as it was supplied, when fetched by its id. *)
Theorem SetConfigs_then_GetConnectorByID (cfgs : list Config) (w w' : World) (cfg : Config) :
  ConnectorConfigRepo.SetConfigs cfgs w = (Ok tt, w') ->
  In cfg cfgs ->
  loadsBack cfg ->
  nextFault w' = None ->
  fst (ConnectorConfigRepo.GetConnectorByID (ConnectorID cfg) w') = Ok cfg.
Proof.
  intros Hset Hin Hload Hnf.
  apply SetConfigs_Ok_inv in Hset as [Hms Hnd].
  destruct (modelsOf_In _ _ _ Hms Hin) as (m & Hm & Hinm).
  unfold newConnectorConfigModel in Hm.
  destruct (json_Marshal cfg) as [b|] eqn:Hb; [|discriminate].
  injection Hm as <-.
  pose proof (unique_row_filter _ _ Hnd Hinm) as Hone.
  unfold findConnector in Hone. cbn [connectorConfigModel_ID] in Hone.
  unfold ConnectorConfigRepo.GetConnectorByID, connector_SelectOne.
  rewrite bind_run, (db_call_served _ Hnf).
  cbn [connector_config set_faults]. rewrite Hone. cbn [fst].
  destruct (Hload _ Hb) as (empty & Hnew & Hun).
  unfold connectorConfigModel_ConnectorConfig.
  cbn [connectorConfigModel_Type connectorConfigModel_Config].
  unfold bytes_of_string, string_of_bytes.
  now rewrite Hnew, list_byte_of_string_of_list_byte, Hun.
Qed.

(** X17.  Set only succeeds on configs with pairwise distinct ids: the
    table it leaves has one row per supplied config and no id twice, so a
    list that names an id twice is refused. *)
Theorem SetConfigs_success_means_distinct_ids (cfgs : list Config) (w w' : World) :
  ConnectorConfigRepo.SetConfigs cfgs w = (Ok tt, w') ->
  NoDup (map ConnectorID cfgs) /\
  map connectorConfigModel_ID (connector_config w') = map ConnectorID cfgs /\
  List.length (connector_config w') = List.length cfgs.
Proof.
  intros Hset. apply SetConfigs_Ok_inv in Hset as [Hms Hnd].
  pose proof (modelsOf_ids _ _ Hms) as Hids.
  repeat split.
  - now rewrite <- Hids.
  - exact Hids.
  - apply (f_equal (@List.length string)) in Hids. now rewrite !length_map in Hids.
Qed.

Lemma configsOf_Ok_inv (rows : list connectorConfigModel) (cfgs : list Config) :
  ConnectorConfigRepo.configsOf rows = Ok cfgs ->
  Forall2 (fun m cfg => connectorConfigModel_ConnectorConfig m = Ok cfg) rows cfgs.
Proof.
  revert cfgs. induction rows as [|m rows IH]; intros cfgs; cbn [ConnectorConfigRepo.configsOf].
  - intros [= <-]. constructor.
  - destruct (connectorConfigModel_ConnectorConfig m) as [c|] eqn:Hc; [|discriminate].
    destruct (ConnectorConfigRepo.configsOf rows) as [cs'|]; [|discriminate].
    intros [= <-]. constructor; auto.
Qed.

(** X18.  All on connector_config either fails as a whole or returns
    exactly one config per row, in the order of the rows, each the reading
    of its row; any single row that does not load, for whatever reason,
    makes the whole call fail.  Nothing is written. *)
Theorem All_configs_one_per_row_or_none (w : World) :
  (forall cfgs, fst (ConnectorConfigRepo.All w) = Ok cfgs ->
     Forall2 (fun m cfg => connectorConfigModel_ConnectorConfig m = Ok cfg)
             (connector_config w) cfgs /\
     List.length cfgs = List.length (connector_config w)) /\
  (forall bad, In bad (connector_config w) ->
     is_Err (connectorConfigModel_ConnectorConfig bad) ->
     is_Err (fst (ConnectorConfigRepo.All w))) /\
  tables (snd (ConnectorConfigRepo.All w)) = tables w.
Proof.
  unfold ConnectorConfigRepo.All. rewrite bind_run, connector_Select_run.
  destruct (nextFault w); unfold lift; cbn [fst snd].
  { repeat split; discriminate. }
  split; [|split].
  - intros cfgs Hc. apply configsOf_Ok_inv in Hc. split; [exact Hc|].
    symmetry. now apply (Forall2_length Hc).
  - intros bad Hin Hbad. now apply (configsOf_bad_row _ bad).
  - reflexivity.
Qed.

End ConnectorMore.

Lemma SetConfigs_then_GetConnectorByID_witness :
  exists w',
    @ConnectorConfigRepo.SetConfigs _ Demo.connectorConfig [Demo.cfgA; Demo.cfgC]
      Demo.world0 = (Ok tt, w') /\
    @loadsBack _ Demo.connectorConfig Demo.registry Demo.cfgC /\
    fst (@ConnectorConfigRepo.GetConnectorByID _ Demo.connectorConfig Demo.registry "c" w')
    = Ok Demo.cfgC.
Proof.
  eexists. split; [vm_compute; reflexivity|].
  split; [exact Demo_loadsBack_cfgC|].
  eapply (@SetConfigs_then_GetConnectorByID _ Demo.connectorConfig Demo.registry
            [Demo.cfgA; Demo.cfgC] Demo.world0 _ Demo.cfgC).
  - vm_compute; reflexivity.
  - right. now left.
  - exact Demo_loadsBack_cfgC.
  - reflexivity.
Defined.

Lemma SetConfigs_success_means_distinct_ids_witness :
  exists w',
    @ConnectorConfigRepo.SetConfigs _ Demo.connectorConfig [Demo.cfgA; Demo.cfgC]
      Demo.world0 = (Ok tt, w') /\
    NoDup (map (@ConnectorID _ Demo.connectorConfig) [Demo.cfgA; Demo.cfgC]) /\
    List.length (connector_config w') = 2.
Proof.
  eexists. split; [vm_compute; reflexivity|].
  edestruct (@SetConfigs_success_means_distinct_ids _ Demo.connectorConfig
               [Demo.cfgA; Demo.cfgC] Demo.world0) as (Hnd & _ & Hlen).
  - vm_compute; reflexivity.
  - split; [exact Hnd|exact Hlen].
Defined.

(** ** The SMTP emailer configuration *)

Section Smtp.
Context {G : email.Gomail} {J : JSON email.SmtpEmailerConfig}.

(** X19.  Emailer takes its sender from the configuration when that has
    one and from the fallback address otherwise, and fails exactly when
    both are empty; an emailer it returns never has an empty sender.
    Unless Auth is exactly "plain", the dialer gets the host and the port
    and neither the username nor the password. *)
Theorem Emailer_sender (cfg : email.SmtpEmailerConfig) (fromAddr : string) :
  (is_Err (email.Emailer cfg fromAddr) <-> email.FromAddr cfg = "" /\ fromAddr = "") /\
  (forall em, email.Emailer cfg fromAddr = Ok em ->
     email.smtpEmailer_from em
     = (if String.eqb (email.FromAddr cfg) "" then fromAddr else email.FromAddr cfg) /\
     email.smtpEmailer_from em <> "" /\
     (email.Auth cfg <> "plain" ->
      email.smtpEmailer_dialer em
      = {| email.Dialer_Host := email.Host cfg; email.Dialer_Port := email.Port cfg;
           email.Dialer_Username := ""; email.Dialer_Password := "";
           email.Dialer_SSL := false |})).
Proof.
  unfold email.Emailer. cbv zeta.
  destruct (String.eqb (email.FromAddr cfg) "") eqn:Hcfg.
  - apply String.eqb_eq in Hcfg.
    destruct (String.eqb fromAddr "") eqn:Hfb.
    + apply String.eqb_eq in Hfb. split; [|discriminate]. cbn. tauto.
    + apply String.eqb_neq in Hfb. split.
      * cbn. split; [intros []|]. intros [_ H]. contradiction.
      * intros em [= <-]. cbn. repeat split; trivial.
        intros Hauth. apply String.eqb_neq in Hauth. now rewrite Hauth.
  - rewrite Hcfg. apply String.eqb_neq in Hcfg. split.
    + cbn. split; [intros []|]. intros [H _]. contradiction.
    + intros em [= <-]. cbn. repeat split; trivial.
      intros Hauth. apply String.eqb_neq in Hauth. now rewrite Hauth.
Qed.

(** X20.  UnmarshalJSON accepts a document only if it decodes and then
    names a host and a non-zero port: when it returns nil the receiver is
    the decoded configuration, with a host and a port; when it returns an
    error the receiver is left exactly as it was. *)
Theorem UnmarshalJSON_validates (data : list byte) (cfg : email.SmtpEmailerConfig) :
  (snd (email.UnmarshalJSON data cfg) = None ->
   json_Unmarshal data email.zeroConfig = Ok (fst (email.UnmarshalJSON data cfg)) /\
   email.Host (fst (email.UnmarshalJSON data cfg)) <> "" /\
   email.Port (fst (email.UnmarshalJSON data cfg)) <> 0%Z) /\
  (snd (email.UnmarshalJSON data cfg) <> None ->
   fst (email.UnmarshalJSON data cfg) = cfg).
Proof.
  unfold email.UnmarshalJSON.
  destruct (json_Unmarshal data email.zeroConfig) as [c|e]; cbn [fst snd].
  2:{ split; [discriminate|reflexivity]. }
  destruct (String.eqb (email.Host c) "") eqn:Hh; cbn [fst snd].
  { split; [discriminate|reflexivity]. }
  destruct (Z.eqb (email.Port c) 0) eqn:Hp; cbn [fst snd].
  { split; [discriminate|reflexivity]. }
  apply String.eqb_neq in Hh. apply Z.eqb_neq in Hp.
  split; [auto|]. intros H. now destruct H.
Qed.

(** X21.  A configuration does not always survive its own serialization.
    With a plain codec that reads back what it wrote for cfg, UnmarshalJSON
    on the serialized cfg gives cfg back exactly when cfg names a host and
    a non-zero port; for any other cfg it fails and leaves the receiver as
    it was. *)
Theorem UnmarshalJSON_round_trip (cfg recv : email.SmtpEmailerConfig) (data : list byte) :
  email.readsBack cfg ->
  json_Marshal cfg = Ok data ->
  (email.UnmarshalJSON data recv = (cfg, None) <->
   email.Host cfg <> "" /\ email.Port cfg <> 0%Z) /\
  (email.Host cfg = "" \/ email.Port cfg = 0%Z ->
   fst (email.UnmarshalJSON data recv) = recv /\
   snd (email.UnmarshalJSON data recv) <> None).
Proof.
  intros Hback Hdata. unfold email.UnmarshalJSON. rewrite (Hback _ Hdata).
  destruct (String.eqb (email.Host cfg) "") eqn:Hh.
  - apply String.eqb_eq in Hh. split.
    + split; [discriminate|]. intros [H _]. contradiction.
    + intros _. cbn. split; [reflexivity|discriminate].
  - apply String.eqb_neq in Hh.
    destruct (Z.eqb (email.Port cfg) 0) eqn:Hp.
    + apply Z.eqb_eq in Hp. split.
      * split; [discriminate|]. intros [_ H]. contradiction.
      * intros _. cbn. split; [reflexivity|discriminate].
    + apply Z.eqb_neq in Hp. split; [tauto|].
      intros [H|H]; contradiction.
Qed.

End Smtp.

Lemma UnmarshalJSON_round_trip_witness :
  @email.readsBack Demo2.jsonSmtp Demo2.smtpCfg /\
  @email.readsBack Demo2.jsonSmtp (Demo2.withHost "" Demo2.smtpCfg) /\
  @email.UnmarshalJSON Demo2.jsonSmtp (bytes_of_string "mail.example.com") email.zeroConfig
  = (Demo2.smtpCfg, None) /\
  snd (@email.UnmarshalJSON Demo2.jsonSmtp (bytes_of_string "") Demo2.smtpCfg) <> None.
Proof.
  assert (H1 : @email.readsBack Demo2.jsonSmtp Demo2.smtpCfg)
    by (intros data [= <-]; reflexivity).
  assert (H2 : @email.readsBack Demo2.jsonSmtp (Demo2.withHost "" Demo2.smtpCfg))
    by (intros data [= <-]; reflexivity).
  split; [exact H1|]. split; [exact H2|]. split.
  - apply (@UnmarshalJSON_round_trip Demo2.jsonSmtp Demo2.smtpCfg email.zeroConfig
             _ H1 eq_refl).
    split; discriminate.
  - apply (@UnmarshalJSON_round_trip Demo2.jsonSmtp (Demo2.withHost "" Demo2.smtpCfg)
             Demo2.smtpCfg _ H2 eq_refl).
    now left.
Defined.
